(** * Math microservice: operations, result cache and dispatcher

    A shallow embedding of [app/services/math_service.py] (with the
    [CacheEntry] model of [app/models/request_model.py]) and the properties
    proved about it.

    Conventions of the embedding.
    - A Python [int] is a [Z]; there is no wrap-around. Where CPython
      turns an int into decimal text or back ([json.dumps],
      [json.loads]), it refuses more than 4300 digits with a
      [ValueError]; this limit is part of the embedding.
    - A Python [str] is a [string] whose characters are the code points
      U+0000..U+00FF.
    - A raised exception is a value: a function that may raise returns an
      [outcome], and [try/except] is a [match] on it.
    - A [dict] that is iterated or serialised is an insertion-ordered
      association list; a dict used as a table is a [gmap].
    - Parameters are ints. A float can only appear as the result of a
      power with a negative exponent; float arithmetic and float text are
      an interface ([FloatOps]), not a definition.
    - The database session is the table [cache_entries] together with
      what each awaited call does when reached (completes or raises); the
      clocks are read from an environment record. Coroutines run to
      completion one after the other.
    - An instant is a number of microseconds since [datetime.min]; the
      arithmetic of [datetime] and [timedelta] raises [OverflowError]
      outside their ranges.
    - Calls of the logger write to the log and return. *)

From Stdlib Require Import ZArith String Ascii.
From stdpp Require Import gmap strings pretty list list_numbers sorting.

Local Open Scope Z_scope.

(** ** Python values that cross function boundaries *)

Inductive exn : Type :=
  | ValueError (msg : string)
  | KeyError (key : Z)
  | ZeroDivisionError (msg : string)
  | OverflowError (msg : string)
  | TypeError (msg : string)
  | SQLAlchemyError (msg : string).

(** [str(e)] for the exceptions above. *)
Definition exn_str (e : exn) : string :=
  match e with
  | ValueError m | ZeroDivisionError m | OverflowError m | TypeError m
  | SQLAlchemyError m => m
  | KeyError k => pretty k
  end.

Inductive outcome (A : Type) : Type :=
  | Ok (a : A)
  | Raise (e : exn).
Arguments Ok {A} a.
Arguments Raise {A} e.

(** Sequencing: the first exception raised ends the computation. *)
Global Instance outcome_bind : MBind outcome := λ A B k r,
  match r with
  | Ok a => k a
  | Raise e => Raise e
  end.

Global Instance outcome_fmap : FMap outcome := λ A B g r,
  match r with
  | Ok a => Ok (g a)
  | Raise e => Raise e
  end.

Definition is_ok {A} (r : outcome A) : bool :=
  match r with Ok _ => true | Raise _ => false end.

(** [range(lo, hi)]: the integers [lo], ..., [hi - 1]; empty when
    [hi <= lo]. *)
Definition range (lo hi : Z) : list Z := seqZ lo (hi - lo).

(** ** FactorialOperation *)

Module FactorialOperation.

(** The practical limit of the loop, [10**300]. *)
Definition limit : Z := 10 ^ 300.

Definition too_large : exn := ValueError "Factorial result too large".

(** The body of [for i in range(2, n + 1)], with the running product as
    the loop state. *)
Fixpoint loop (todo : list Z) (res : Z) : outcome Z :=
  match todo with
  | [] => Ok res
  | i :: rest =>
      let res := res * i in
      if limit <? res then Raise too_large else loop rest res
  end.

Definition execute (n : Z) : outcome Z :=
  if (n =? 0) || (n =? 1) then Ok 1
  else loop (range 2 (n + 1)) 1.

Definition get_operation_name : string := "factorial".

End FactorialOperation.

(** The mathematical factorial, [1 * 2 * ... * n] (1 when [n <= 0]). *)
Definition factorial (n : Z) : Z := foldr Z.mul 1 (seqZ 1 n).

(** ** FibonacciOperation *)

Module FibonacciOperation.

(** [self._memo], a dict from positions to values. *)
Abbreviation memo := (gmap Z Z).

(** [__init__]: [{0: 0, 1: 1}]. *)
Definition init : memo := <[1 := 1]> (<[0 := 0]> ∅).

(** [self._memo[k]], which raises [KeyError] on a missing key. *)
Definition getitem (m : memo) (k : Z) : outcome Z :=
  match m !! k with
  | Some v => Ok v
  | None => Raise (KeyError k)
  end.

(** Loop state: the locals [a], [b] and the memo table. *)
Record locals : Type := Locals { loc_a : Z; loc_b : Z; loc_memo : memo }.

(** One iteration of [for i in range(2, n + 1)]. *)
Definition step (i : Z) (st : locals) : outcome locals :=
  let '(Locals a b m) := st in
  match m !! i with
  | None =>
      let '(a, b) := (b, a + b) in
      Ok (Locals a b (<[i := b]> m))
  | Some _ =>
      a' ← getitem m (i - 1);
      b' ← getitem m i;
      Ok (Locals a' b' m)
  end.

(** The loop: the locals when it stops, and the exception that stopped
    it, if any. *)
Fixpoint loop (todo : list Z) (st : locals) : locals * option exn :=
  match todo with
  | [] => (st, None)
  | i :: rest =>
      match step i st with
      | Ok st' => loop rest st'
      | Raise e => (st, Some e)
      end
  end.

(** [_fibonacci_memo]: the value returned and the memo table afterwards
    (the table is instance state: what the loop stored survives the
    call, also when the call raises). *)
Definition _fibonacci_memo (m : memo) (n : Z) : outcome Z * memo :=
  match m !! n with
  | Some v => (Ok v, m)
  | None =>
      if n <? 2 then (Ok n, m)
      else
        match loop (range 2 (n + 1)) (Locals 0 1 m) with
        | (st, None) => (getitem (loc_memo st) n, loc_memo st)
        | (st, Some e) => (Raise e, loc_memo st)
        end
  end.

Definition execute (m : memo) (n : Z) : outcome Z * memo := _fibonacci_memo m n.

Definition get_operation_name : string := "fibonacci".

End FibonacciOperation.

(** The Fibonacci numbers, by the textbook pair iteration. *)
Fixpoint fib_pair (k : nat) : Z * Z :=
  match k with
  | O => (0, 1)
  | S k => let '(a, b) := fib_pair k in (b, a + b)
  end.

Definition fib (n : Z) : Z := fst (fib_pair (Z.to_nat n)).

(** ** json: the encoder for parameter dicts

    A parameter dict maps names to Python ints, in insertion order (float
    parameters are outside this embedding). [json.dumps] is called with
    its defaults: separators [", "] and [": "], and [ensure_ascii]. An
    int is written by [int.__repr__], which raises [ValueError] on an int
    of more than 4300 digits; the exception leaves [json.dumps]. *)

Abbreviation dict := (list (string * Z)).

Module json.

Definition dquote : ascii := "034"%char.
Definition backslash : ascii := "092"%char.

Definition hex_digit (n : N) : ascii :=
  match n with
  | 0 => "0" | 1 => "1" | 2 => "2" | 3 => "3" | 4 => "4" | 5 => "5"
  | 6 => "6" | 7 => "7" | 8 => "8" | 9 => "9" | 10 => "a" | 11 => "b"
  | 12 => "c" | 13 => "d" | 14 => "e" | _ => "f"
  end%char%N.

(** One character of a string literal under [ensure_ascii]: the short
    escapes, [\u00XX] for what is not printable ASCII, the character
    itself otherwise. *)
Definition escape_char (c : ascii) : string :=
  let n := N_of_ascii c in
  if (n =? 34)%N then String backslash (String dquote "")
  else if (n =? 92)%N then String backslash (String backslash "")
  else if (n =? 10)%N then String backslash "n"
  else if (n =? 13)%N then String backslash "r"
  else if (n =? 9)%N then String backslash "t"
  else if (n =? 12)%N then String backslash "f"
  else if (n =? 8)%N then String backslash "b"
  else if (n <? 32)%N || (126 <? n)%N then
    String backslash
      (String "u" (String "0" (String "0"
        (String (hex_digit (n / 16)) (String (hex_digit (n mod 16)) "")))))
  else String c "".

Fixpoint escape (s : string) : string :=
  match s with
  | EmptyString => ""
  | String c rest => escape_char c +:+ escape rest
  end.

Definition dumps_str (s : string) : string :=
  String dquote (escape s +:+ String dquote "").

(** [sys.get_int_max_str_digits()], at its default. *)
Definition max_str_digits : Z := 4300.

Definition digit_limit : exn :=
  ValueError "Exceeds the limit (4300 digits) for integer string conversion; use sys.set_int_max_str_digits() to increase the limit".

(** Whether [z] has at most [max_str_digits] decimal digits. *)
Definition fits (z : Z) : bool := Z.abs z <? 10 ^ max_str_digits.
Global Arguments fits : simpl never.

Definition dumps_int (z : Z) : outcome string :=
  if fits z then Ok (pretty z) else Raise digit_limit.

Definition dumps_item (kv : string * Z) : outcome string :=
  v ← dumps_int kv.2; Ok (dumps_str kv.1 +:+ ": " +:+ v).

Fixpoint dumps_items (d : dict) : outcome (list string) :=
  match d with
  | [] => Ok []
  | kv :: rest =>
      item ← dumps_item kv; items ← dumps_items rest; Ok (item :: items)
  end.

(** [json.dumps(d)]: the items in insertion order. *)
Definition dumps (d : dict) : outcome string :=
  items ← dumps_items d; Ok ("{" +:+ String.concat ", " items +:+ "}").

(** The order of [sorted(d.items())]: by key, code point by code point
    (the keys of a dict are distinct, so the values are never compared). *)
Definition item_le (x y : string * Z) : Prop := String.le x.1 y.1.

Global Instance item_le_dec : RelDecision item_le.
Proof. intros x y. unfold item_le. apply _. Defined.

Definition sorted (d : dict) : dict := merge_sort item_le d.

(** [json.dumps(d, sort_keys=True)]. *)
Definition dumps_sort_keys (d : dict) : outcome string := dumps (sorted d).

(** The whitespace [json.loads] skips before and after a value: space,
    tab, line feed and carriage return. *)
Definition is_ws (c : ascii) : bool :=
  let n := N_of_ascii c in
  (n =? 32)%N || (n =? 9)%N || (n =? 10)%N || (n =? 13)%N.

Fixpoint skip_ws (s : string) : string :=
  match s with
  | EmptyString => ""
  | String c rest => if is_ws c then skip_ws rest else s
  end.

Fixpoint drop_ws_end (s : string) : string :=
  match s with
  | EmptyString => ""
  | String c rest =>
      match drop_ws_end rest with
      | EmptyString => if is_ws c then "" else String c ""
      | r => String c r
      end
  end.

Definition strip_ws (s : string) : string := drop_ws_end (skip_ws s).

(** A JSON integer literal: an optional minus sign, then [0] or a
    digit string that does not start with [0]. *)
Definition digit_of (c : ascii) : option N :=
  let n := N_of_ascii c in
  if (48 <=? n)%N && (n <=? 57)%N then Some (n - 48)%N else None.

Fixpoint digits_to_N (s : string) (acc : N) : option N :=
  match s with
  | EmptyString => Some acc
  | String c rest => d ← digit_of c; digits_to_N rest (10 * acc + d)%N
  end.

Definition parse_nat (s : string) : option N :=
  match s with
  | EmptyString => None
  | String c rest =>
      if Ascii.eqb c "0" then (if String.eqb rest "" then Some 0%N else None)
      else digits_to_N s 0
  end.

Definition parse_int (s : string) : option Z :=
  match s with
  | EmptyString => None
  | String c rest =>
      if Ascii.eqb c "-" then n ← parse_nat rest; Some (- Z.of_N n)
      else Z.of_N <$> parse_nat s
  end.

End json.

(** ** hashlib.sha256

    SHA-256 as FIPS 180-4 defines it, on bytes held as [Z] in 0..255 and
    32-bit words held as [Z] in 0..2^32-1. *)

Module sha256.

(** [str.encode()]: UTF-8. A code point below U+0080 is one byte, one in
    U+0080..U+00FF is two. *)
Definition encode_char (c : ascii) : list Z :=
  let n := Z.of_N (N_of_ascii c) in
  if n <? 128 then [n]
  else [Z.lor 192 (Z.shiftr n 6); Z.lor 128 (Z.land n 63)].

Fixpoint encode (s : string) : list Z :=
  match s with
  | EmptyString => []
  | String c rest => encode_char c ++ encode rest
  end.

Definition add32 (x y : Z) : Z := (x + y) mod 2 ^ 32.
Definition rotr (n x : Z) : Z :=
  Z.lor (Z.shiftr x n) (Z.shiftl x (32 - n) mod 2 ^ 32).
Definition shr (n x : Z) : Z := Z.shiftr x n.
Definition not32 (x : Z) : Z := Z.lxor x (2 ^ 32 - 1).

Definition Ch (x y z : Z) : Z := Z.lxor (Z.land x y) (Z.land (not32 x) z).
Definition Maj (x y z : Z) : Z :=
  Z.lxor (Z.lxor (Z.land x y) (Z.land x z)) (Z.land y z).
Definition Sigma0 (x : Z) : Z := Z.lxor (Z.lxor (rotr 2 x) (rotr 13 x)) (rotr 22 x).
Definition Sigma1 (x : Z) : Z := Z.lxor (Z.lxor (rotr 6 x) (rotr 11 x)) (rotr 25 x).
Definition sigma0 (x : Z) : Z := Z.lxor (Z.lxor (rotr 7 x) (rotr 18 x)) (shr 3 x).
Definition sigma1 (x : Z) : Z := Z.lxor (Z.lxor (rotr 17 x) (rotr 19 x)) (shr 10 x).

(** The constants are defined as the standard defines them: the first 32
    bits of the fractional parts of the cube roots (for [K]) and of the
    square roots (for the initial hash value) of the first primes. *)
Definition is_prime (p : Z) : bool :=
  forallb (λ d, negb (p mod d =? 0)) (seqZ 2 (p - 2)).

Definition primes (n : nat) : list Z := take n (List.filter is_prime (seqZ 2 400)).

(** The largest [x < 2^bits] with [x^k <= n], bit by bit. *)
Fixpoint iroot (k n : Z) (bits : nat) (x : Z) : Z :=
  match bits with
  | O => x
  | S bits =>
      let y := x + 2 ^ Z.of_nat bits in
      iroot k n bits (if y ^ k <=? n then y else x)
  end.

Definition root_fraction (k p : Z) : Z :=
  iroot k (p * 2 ^ (32 * k)) 40 0 mod 2 ^ 32.

Definition K : list Z := Eval vm_compute in root_fraction 3 <$> primes 64.

(** The eight working variables, and the hash value between blocks. *)
Record regs : Type :=
  Regs { ra : Z; rb : Z; rc : Z; rd : Z; re : Z; rf : Z; rg : Z; rh : Z }.

Definition regs_of (ws : list Z) : regs :=
  match ws with
  | [a; b; c; d; e; f; g; h] => Regs a b c d e f g h
  | _ => Regs 0 0 0 0 0 0 0 0
  end.

Definition H0 : regs := Eval vm_compute in regs_of (root_fraction 2 <$> primes 8).

(** Padding: a 1 bit, zeros up to 56 modulo 64 bytes, and the bit length
    as a 64-bit big-endian number. *)
Definition be_bytes (n : nat) (x : Z) : list Z :=
  (λ i, Z.shiftr x (8 * Z.of_nat i) mod 256) <$> reverse (seq 0 n).

Definition pad (msg : list Z) : list Z :=
  let len := Z.of_nat (length msg) in
  msg ++ [128] ++ replicate (Z.to_nat ((55 - len) mod 64)) 0
      ++ be_bytes 8 (8 * len).

Fixpoint chunks (fuel size : nat) (l : list Z) : list (list Z) :=
  match fuel, l with
  | S fuel, _ :: _ => take size l :: chunks fuel size (drop size l)
  | _, _ => []
  end.

Definition be_word (bs : list Z) : Z := foldl (λ acc b, acc * 256 + b) 0 bs.

Definition block_words (block : list Z) : list Z :=
  be_word <$> chunks 16 4 block.

(** The message schedule, most recent word first. *)
Fixpoint extend (n : nat) (rev_w : list Z) : list Z :=
  match n with
  | O => rev_w
  | S n =>
      let w := add32 (add32 (add32 (sigma1 (rev_w !!! 1%nat)) (rev_w !!! 6%nat))
                            (sigma0 (rev_w !!! 14%nat))) (rev_w !!! 15%nat) in
      extend n (w :: rev_w)
  end.

Definition schedule (block : list Z) : list Z :=
  reverse (extend 48 (reverse (block_words block))).

Definition round (r : regs) (kw : Z * Z) : regs :=
  let '(Regs a b c d e f g h) := r in
  let t1 := add32 (add32 (add32 (add32 h (Sigma1 e)) (Ch e f g)) kw.1) kw.2 in
  let t2 := add32 (Sigma0 a) (Maj a b c) in
  Regs (add32 t1 t2) a b c (add32 d t1) e f g.

Definition compress (h : regs) (block : list Z) : regs :=
  let r := foldl round h (zip K (schedule block)) in
  Regs (add32 (ra h) (ra r)) (add32 (rb h) (rb r)) (add32 (rc h) (rc r))
       (add32 (rd h) (rd r)) (add32 (re h) (re r)) (add32 (rf h) (rf r))
       (add32 (rg h) (rg r)) (add32 (rh h) (rh r)).

Definition hash (msg : list Z) : regs :=
  let padded := pad msg in
  foldl compress H0 (chunks (length padded) 64 padded).

(** The digest as a 256-bit number, first word most significant. *)
Definition digest (msg : list Z) : Z :=
  let '(Regs a b c d e f g h) := hash msg in
  foldl (λ acc w, acc * 2 ^ 32 + w) 0 [a; b; c; d; e; f; g; h] mod 2 ^ 256.

(** [n] lowercase hexadecimal digits of [x], most significant first. *)
Fixpoint hex (n : nat) (x : Z) (acc : string) : string :=
  match n with
  | O => acc
  | S n => hex n (x / 16) (String (json.hex_digit (Z.to_N (x mod 16))) acc)
  end.

(** [hashlib.sha256(data).hexdigest()]: 64 hexadecimal digits. *)
Definition hexdigest (msg : list Z) : string := hex 64 (digest msg) "".

End sha256.

(** ** The cache table

    A row of [cache_entries] ([CacheEntry] of [request_model.py]). The
    table is indexed by the unique column [cache_key], which is the key of
    the map; [id] is a surrogate key and is left out. Instants are
    microseconds on the clock of [datetime.utcnow()], counted from
    [datetime.min]. *)

Record CacheEntry : Type := mkCacheEntry {
  operation : string;
  parameters : string;            (* JSON text of the parameters *)
  result_json : string;           (* column [result]: JSON text of the result *)
  created_at : Z;
  expires_at : option Z;          (* nullable *)
  hit_count : Z                   (* default 0 *)
}.

Abbreviation table := (gmap string CacheEntry).

(** What one call on the database session does when it is reached: it
    completes ([None]) or it raises. *)
Record faults : Type := mkFaults {
  on_select : option exn;         (* [await db.execute(stmt)] *)
  on_commit : option exn;         (* [await db.commit()] *)
  on_rollback : option exn        (* [await db.rollback()] *)
}.

Definition no_faults : faults := mkFaults None None None.

(** [timedelta(hours=h)] in microseconds. *)
Definition timedelta_hours (h : Z) : Z := h * 3600000000.

(** [datetime.max], 9999-12-31 23:59:59.999999. *)
Definition datetime_max : Z := 315537897599999999.

(** The constructor [timedelta(hours=h)]: the days of the duration must
    fit a C [int], and then have a magnitude of at most 999999999. *)
Definition timedelta (hours : Z) : outcome Z :=
  let days := hours `div` 24 in
  if (days <? - 2 ^ 31) || (2 ^ 31 <=? days)
  then Raise (OverflowError "Python int too large to convert to C int")
  else if 999999999 <? Z.abs days
  then Raise (OverflowError ("days=" +:+ pretty days
                             +:+ "; must have magnitude <= 999999999"))
  else Ok (timedelta_hours hours).

(** [t + delta] on a [datetime] and a [timedelta]. *)
Definition datetime_add (t delta : Z) : outcome Z :=
  if (0 <=? t + delta) && (t + delta <=? datetime_max) then Ok (t + delta)
  else Raise (OverflowError "date value out of range").

(** The SQL comparison [expires_at > now]: a NULL [expires_at] compares as
    unknown, and the row is not selected. *)
Definition expires_after (e : CacheEntry) (now : Z) : bool :=
  match expires_at e with
  | Some t => now <? t
  | None => false
  end.

(** [cache_entry.hit_count += 1]. *)
Definition incr_hit_count (e : CacheEntry) : CacheEntry :=
  mkCacheEntry (operation e) (parameters e) (result_json e) (created_at e)
    (expires_at e) (hit_count e + 1).

(** The three assignments of [set] to an existing row: [result],
    [expires_at] and [parameters]. *)
Definition update_entry (e : CacheEntry) (result : string) (expires : Z)
    (params : string) : CacheEntry :=
  mkCacheEntry (operation e) params result (created_at e) (Some expires)
    (hit_count e).

(** Python floats are not represented bit by bit: the type, its JSON text
    and the floating-point power are taken as given. An int raised to a
    negative int is the one place where the modelled operations produce a
    float. *)
Class FloatOps (pyfloat : Type) : Type := {
  (* [float.__repr__], as [json.dumps] writes a float *)
  float_repr : pyfloat → string;
  (* [json.loads] on a literal that is no int literal *)
  float_of_json : string → option pyfloat;
  (* [pow(base, exponent)] on ints with [exponent < 0] *)
  float_pow : Z → Z → outcome pyfloat
}.

Section service.

Context {pyfloat : Type} `{!FloatOps pyfloat}.

Inductive number : Type :=
  | PyInt (z : Z)
  | PyFloat (x : pyfloat).

(** [json.dumps(result)] on a number. *)
Definition json_dumps (r : number) : outcome string :=
  match r with
  | PyInt z => json.dumps_int z
  | PyFloat x => Ok (float_repr x)
  end.

(** [json.loads(text)], as its one caller [get] sees it: the number
    decoded, or [None] where [json.loads] raises (which [get] turns into
    [None]) or decodes [null]. An integer literal of more than 4300 digits
    makes [int] raise; a text that is no integer literal is left to the
    float scanner. JSON texts that hold a string, a list, an object or a
    boolean are outside the embedding. *)
Definition json_loads (text : string) : option number :=
  match json.parse_int (json.strip_ws text) with
  | Some z => if json.fits z then Some (PyInt z) else None
  | None => PyFloat <$> float_of_json text
  end.

(** *** PowerOperation *)

(** The builtin [pow] on ints. *)
Definition pow (base exponent : Z) : outcome number :=
  if 0 <=? exponent then Ok (PyInt (base ^ exponent))
  else x ← float_pow base exponent; Ok (PyFloat x).

(** [PowerOperation.execute]. On ints [pow] never returns a complex
    number, so the [isinstance(result, complex)] branch is not taken;
    [OverflowError] is the one exception the method translates. *)
Definition PowerOperation_execute (base exponent : Z) : outcome number :=
  match pow base exponent with
  | Ok r => Ok r
  | Raise (OverflowError _) => Raise (ValueError "Result too large to compute")
  | Raise e => Raise e
  end.

(** *** CacheManager *)

Definition default_ttl_hours : Z := 24.

(** The string that is hashed, [f"{operation}:{json.dumps(...)}"]. *)
Definition key_data (operation : string) (parameters : dict) : outcome string :=
  text ← json.dumps_sort_keys parameters; Ok (operation +:+ ":" +:+ text).

Definition _generate_cache_key (operation : string) (parameters : dict)
    : outcome string :=
  key_data ← key_data operation parameters;
  Ok (sha256.hexdigest (sha256.encode key_data)).

(** [CacheManager.get]: the value returned ([None] for Python's [None])
    or the exception raised, and the table afterwards. The key is
    computed before the [try]: what [json.dumps] raises there leaves
    [get]. Every statement after that is inside
    [try: ... except Exception], which logs and falls through to
    [return None]; a commit that raises persists nothing. *)
Definition get (db : table) (now : Z) (f : faults)
    (operation : string) (parameters : dict)
    : outcome (option number) * table :=
  match _generate_cache_key operation parameters with
  | Raise e => (Raise e, db)
  | Ok cache_key =>
      match on_select f with
      | Some _ => (Ok None, db)
      | None =>
          match db !! cache_key with
          | Some cache_entry =>
              if expires_after cache_entry now then
                let cache_entry := incr_hit_count cache_entry in
                match on_commit f with
                | Some _ => (Ok None, db)
                | None =>
                    (Ok (json_loads (result_json cache_entry)),
                     <[cache_key := cache_entry]> db)
                end
              else (Ok None, db)
          | None => (Ok None, db)
          end
      end
  end.

(** The [except] clause of [set]: log, then [await db.rollback()], which
    is not itself guarded. *)
Definition set_handler (db : table) (f : faults) : outcome () * table :=
  match on_rollback f with
  | Some e => (Raise e, db)
  | None => (Ok (), db)
  end.

(** The row [set] is about to commit: the existing row with its
    [result], [expires_at] and [parameters] assigned, or a new row. Both
    calls of [json.dumps] can raise. *)
Definition set_entry (existing : option CacheEntry) (now expires_at : Z)
    (operation : string) (parameters : dict) (result : number)
    : outcome CacheEntry :=
  match existing with
  | Some cache_entry =>
      result ← json_dumps result;
      parameters ← json.dumps parameters;
      Ok (update_entry cache_entry result expires_at parameters)
  | None =>
      parameters ← json.dumps parameters;
      result ← json_dumps result;
      Ok (mkCacheEntry operation parameters result now (Some expires_at) 0)
  end.

(** [CacheManager.set]. The key and the expiry are computed before the
    [try]: what [json.dumps], [timedelta] or the addition raise there
    leaves [set]. Inside the [try], every exception goes to the handler
    and nothing is stored. *)
Definition set (db : table) (now : Z) (f : faults)
    (operation : string) (parameters : dict) (result : number)
    (ttl_hours : option Z) : outcome () * table :=
  match _generate_cache_key operation parameters with
  | Raise e => (Raise e, db)
  | Ok cache_key =>
      let ttl :=
        match ttl_hours with
        | Some t => if t =? 0 then default_ttl_hours else t
        | None => default_ttl_hours
        end in
      match (delta ← timedelta ttl; datetime_add now delta) with
      | Raise e => (Raise e, db)
      | Ok expires_at =>
          match on_select f with
          | Some _ => set_handler db f
          | None =>
              match set_entry (db !! cache_key) now expires_at operation
                      parameters result with
              | Raise _ => set_handler db f
              | Ok cache_entry =>
                  match on_commit f with
                  | Some _ => set_handler db f
                  | None => (Ok (), <[cache_key := cache_entry]> db)
                  end
              end
          end
      end
  end.

(** *** MathService *)

(** The operation objects of the registry. *)
Inductive operation_obj : Type :=
  | PowerOperation
  | FibonacciOperation
  | FactorialOperation.

(** [MathService]: the registry, and the memo table of its
    [FibonacciOperation] instance. *)
Record MathService : Type := mkMathService {
  operations : gmap string operation_obj;
  fib_memo : gmap Z Z
}.

(** [MathService.__init__]. *)
Definition MathService_init : MathService :=
  mkMathService
    (<["factorial" := FactorialOperation]>
      (<["fibonacci" := FibonacciOperation]>
        (<["power" := PowerOperation]> ∅)))
    FibonacciOperation.init.

(** The names a call is missing, as CPython lists them in its
    [TypeError]: ['a'], ['a' and 'b'], ['a', 'b', and 'c']. *)
Definition quoted (name : string) : string := "'" +:+ name +:+ "'".

Fixpoint missing_names (missing : list string) : string :=
  match missing with
  | [] => ""
  | [a] => quoted a
  | [a; b] => quoted a +:+ " and " +:+ quoted b
  | [a; b; c] => quoted a +:+ ", " +:+ quoted b +:+ ", and " +:+ quoted c
  | a :: rest => quoted a +:+ ", " +:+ missing_names rest
  end.

Definition missing_message (qualname : string) (missing : list string)
    : string :=
  qualname +:+ "() missing " +:+ pretty (length missing)
  +:+ " required positional argument"
  +:+ (if decide (length missing = 1%nat) then "" else "s")
  +:+ ": " +:+ missing_names missing.

(** Binding [**parameters] to the parameters [names] of the method
    [qualname], whose first parameter [self] is bound to the instance:
    the first keyword of the dict that names no parameter is rejected;
    then the parameters left without a value are reported together; else
    the frame holds the values under the names. *)
Definition bind_kwargs (qualname : string) (names : list string)
    (parameters : dict) : outcome (gmap string Z) :=
  match filter (λ kv, kv.1 ∉ names) parameters with
  | kv :: _ =>
      if decide (kv.1 = "self")
      then Raise (TypeError (qualname
                             +:+ "() got multiple values for argument 'self'"))
      else Raise (TypeError (qualname
                             +:+ "() got an unexpected keyword argument '"
                             +:+ kv.1 +:+ "'"))
  | [] =>
      match filter (λ name, name ∉ parameters.*1) names with
      | [] => Ok (list_to_map parameters)
      | missing => Raise (TypeError (missing_message qualname missing))
      end
  end.

(** The call of [operation.execute] with the dict as keyword arguments. *)
Definition call_execute (operation : operation_obj) (svc : MathService)
    (parameters : dict) : outcome number * MathService :=
  match operation with
  | PowerOperation =>
      (frame ← bind_kwargs "PowerOperation.execute" ["base"; "exponent"]
                 parameters;
       PowerOperation_execute (frame !!! "base") (frame !!! "exponent"), svc)
  | FibonacciOperation =>
      match bind_kwargs "FibonacciOperation.execute" ["n"] parameters with
      | Ok frame =>
          let '(r, memo) :=
            FibonacciOperation.execute (fib_memo svc) (frame !!! "n") in
          (PyInt <$> r, mkMathService (operations svc) memo)
      | Raise e => (Raise e, svc)
      end
  | FactorialOperation =>
      (frame ← bind_kwargs "FactorialOperation.execute" ["n"] parameters;
       PyInt <$> FactorialOperation.execute (frame !!! "n"), svc)
  end.

(** What one dispatch reads from outside: the two wall-clock instants,
    the two [time.perf_counter()] readings, and what the session does in
    [get] and in [set]. *)
Record env : Type := mkEnv {
  utcnow_get : Z;
  faults_get : faults;
  perf_start : Z;
  perf_end : Z;
  utcnow_set : Z;
  faults_set : faults
}.

(** [MathService.execute_operation]: the tuple
    [(result, execution_time_ms, cached)] or the exception raised, with
    the service and the table afterwards. The call of [get] is before
    the [try]: an exception that leaves [get] leaves the dispatch as it
    is. *)
Definition execute_operation (svc : MathService) (db : table) (w : env)
    (operation_name : string) (parameters : dict) (use_cache : bool)
    : outcome (number * Z * bool) * MathService * table :=
  match operations svc !! operation_name with
  | None =>
      (Raise (ValueError ("Unsupported operation: " +:+ operation_name)), svc, db)
  | Some operation =>
      let '(cached_result, db) :=
        if use_cache
        then get db (utcnow_get w) (faults_get w) operation_name parameters
        else (Ok None, db) in
      match cached_result with
      | Raise e => (Raise e, svc, db)
      | Ok (Some cached_result) => (Ok (cached_result, 0, true), svc, db)
      | Ok None =>
          let '(r, svc) := call_execute operation svc parameters in
          let execution_time := (perf_end w - perf_start w) * 1000 in
          match r with
          | Ok result =>
              let '(stored, db) :=
                if use_cache
                then set db (utcnow_set w) (faults_set w) operation_name
                       parameters result None
                else (Ok (), db) in
              match stored with
              | Ok _ => (Ok (result, execution_time, false), svc, db)
              | Raise e =>
                  (Raise (ValueError ("Operation failed: " +:+ exn_str e)), svc, db)
              end
          | Raise e =>
              (Raise (ValueError ("Operation failed: " +:+ exn_str e)), svc, db)
          end
      end
  end.

End service.

Arguments number : clear implicits.

(** ** Vocabulary of the statements *)

(** What [execute] does on each of 0..166, checked by evaluation. *)
Definition factorial_row_ok (n : Z) : bool :=
  match FactorialOperation.execute n with
  | Ok r => (r =? factorial n) && (r <? FactorialOperation.limit)
  | Raise _ => false
  end.

(** The memo tables a [FibonacciOperation] can hold: the Fibonacci numbers
    at the positions [0..k], for some [k >= 1], and nothing else. *)
Definition memo_upto (k : Z) (m : gmap Z Z) : Prop :=
  1 ≤ k ∧ ∀ i, m !! i = if bool_decide (0 ≤ i ≤ k) then Some (fib i) else None.

Definition memo_ok (m : gmap Z Z) : Prop := ∃ k, memo_upto k m.

(** The text of a parameter dict, and the key made of it, where every
    value is within the digit limit: what [json.dumps] and
    [_generate_cache_key] return when they return. *)
Definition item_text (kv : string * Z) : string :=
  json.dumps_str kv.1 +:+ ": " +:+ pretty kv.2.

Definition dict_text (d : dict) : string :=
  "{" +:+ String.concat ", " (item_text <$> d) +:+ "}".

Definition key_text (operation : string) (d : dict) : string :=
  operation +:+ ":" +:+ dict_text (json.sorted d).

Definition cache_key_of (operation : string) (d : dict) : string :=
  sha256.hexdigest (sha256.encode (key_text operation d)).

(** Every value of the dict has at most 4300 digits. *)
Definition fits_all (d : dict) : bool := forallb (λ kv, json.fits kv.2) d.

(** An instant that [datetime] can hold. *)
Definition is_datetime (t : Z) : Prop := 0 ≤ t ≤ datetime_max.

(** [all_chars p s]: every character of [s] passes [p]. *)
Fixpoint all_chars (p : ascii → bool) (s : string) : bool :=
  match s with
  | EmptyString => true
  | String c rest => p c && all_chars p rest
  end.

(** [ttl_hours or self.default_ttl_hours]: the hours [set] adds to the
    clock. *)
Definition effective_ttl (ttl_hours : option Z) : Z :=
  match ttl_hours with
  | Some t => if t =? 0 then default_ttl_hours else t
  | None => default_ttl_hours
  end.

(** The characters of a decimal integer: the digits and the minus sign. *)
Definition numeric_char (c : ascii) : bool :=
  let n := N_of_ascii c in (n =? 45)%N || ((48 <=? n)%N && (n <=? 57)%N).

(** What follows an item inside the braces: the closing brace, or the
    separator and the remaining items. *)
Definition dumps_tail (rest : list string) : string :=
  match rest with
  | [] => "}"
  | _ => ", " +:+ String.concat ", " rest +:+ "}"
  end.

(** The value of a hexadecimal digit, to read [hex_digit] back. *)
Definition hex_value (c : ascii) : N :=
  let n := N_of_ascii c in if (n <? 58)%N then (n - 48)%N else (n - 87)%N.

(** The first character of an encoded string, read back. *)
Definition decode_first (bytes : list Z) : option (ascii * list Z) :=
  match bytes with
  | [] => None
  | b0 :: rest =>
      if b0 <? 128 then Some (ascii_of_N (Z.to_N b0), rest)
      else
        match rest with
        | [] => None
        | b1 :: rest => Some (ascii_of_N (Z.to_N ((b0 - 192) * 64 + (b1 - 128))), rest)
        end
  end.

(** ** Sequences of cache operations *)

Section cache_ops.

Context {pyfloat : Type} `{!FloatOps pyfloat}.

(** A call on the Cache Store, with the instant it reads and what the
    session does during it. *)
Inductive cache_op : Type :=
  | CacheGet (now : Z) (f : faults) (operation : string) (parameters : dict)
  | CacheSet (now : Z) (f : faults) (operation : string) (parameters : dict)
      (result : number pyfloat) (ttl_hours : option Z).

Definition cache_step (db : table) (op : cache_op) : table :=
  match op with
  | CacheGet now f operation parameters =>
      (get db now f operation parameters).2
  | CacheSet now f operation parameters result ttl_hours =>
      (set db now f operation parameters result ttl_hours).2
  end.

Definition cache_run (db : table) (ops : list cache_op) : table :=
  foldl cache_step db ops.

End cache_ops.

(** The row [set] writes over [existing] when nothing raises, from the
    two JSON texts and the expiry. *)
Definition written_entry (existing : option CacheEntry) (now : Z)
    (operation parameters_text result_text : string) (expires : Z)
    : CacheEntry :=
  match existing with
  | Some e => update_entry e result_text expires parameters_text
  | None =>
      mkCacheEntry operation parameters_text result_text now (Some expires) 0
  end.

(** ** A float model for closed examples

    The examples below run the service on ints only; they are stated for
    the model in which no float value exists. *)

Global Instance no_floats : FloatOps Empty_set := {|
  float_repr := Empty_set_rect (λ _, string);
  float_of_json _ := None;
  float_pow _ _ := Raise (ZeroDivisionError "0.0 cannot be raised to a negative power")
|}.

(** A table whose one row, for [fibonacci {n: 10}], has a NULL
    [expires_at]. *)
Definition db_null_expiry : table :=
  {[ cache_key_of "fibonacci" [("n", 10)] :=
       mkCacheEntry "fibonacci" (dict_text [("n", 10)]) "55" 0 None 0 ]}.

(** One dispatch with a working session: the instants are microseconds,
    the performance counter readings are left abstract. *)
Definition env_at (now : Z) : env := mkEnv now no_faults 10 12 now no_faults.

(** A dispatch in which [commit] raises inside [set], and then
    [rollback] raises too. *)
Definition env_rollback_fails : env :=
  mkEnv 0 no_faults 10 12 0
    (mkFaults None (Some (SQLAlchemyError "database is locked"))
       (Some (SQLAlchemyError "connection closed"))).

(** A dispatch in which [select] raises inside [get], and [commit] raises
    inside [set] with a [rollback] that completes. *)
Definition env_store_down : env :=
  mkEnv 0 (mkFaults (Some (SQLAlchemyError "database is locked")) None None)
    10 12 0
    (mkFaults None (Some (SQLAlchemyError "database is locked")) None).

(** A table whose one row, for [fibonacci {n: 10}], expires at instant
    200. *)
Definition db_unexpired : table :=
  {[ cache_key_of "fibonacci" [("n", 10)] :=
       mkCacheEntry "fibonacci" (dict_text [("n", 10)]) "55" 0 (Some 200) 0 ]}.

(** The first dispatch of [fibonacci {n: 10}] on a fresh service and an
    empty table, at instant 0. *)
Definition first_dispatch :=
  execute_operation MathService_init ∅ (env_at 0) "fibonacci" [("n", 10)] true.

(** ** Request schemas: the validators of [math_schemas.py]

    The bodies of the two [@validator] methods. (The [Field] bounds
    [ge]/[le] of the same fields are pydantic's and accept the same
    ranges.) *)

Module schemas.

Definition validate_fibonacci_input (v : Z) : outcome Z :=
  if v <? 0 then Raise (ValueError "Fibonacci position must be non-negative")
  else if 1000 <? v then
    Raise (ValueError
             "Fibonacci position must not exceed 1000 for performance reasons")
  else Ok v.

Definition validate_factorial_input (v : Z) : outcome Z :=
  if v <? 0 then Raise (ValueError "Factorial input must be non-negative")
  else if 170 <? v then
    Raise (ValueError "Factorial input must not exceed 170 to prevent overflow")
  else Ok v.

End schemas.

(** ** The controller ([math_controller.py])

    What a route reads of the incoming request: two headers and the
    address of the peer. *)

Record Request : Type := mkRequest {
  x_forwarded_for : option string;  (* [request.headers.get("X-Forwarded-For")] *)
  client_host : option string;      (* [request.client.host], when [request.client] is set *)
  user_agent : option string        (* [request.headers.get("User-Agent")] *)
}.

(** [s.split(",")[0]]: what comes before the first comma. *)
Fixpoint before_comma (s : string) : string :=
  match s with
  | EmptyString => ""
  | String c rest => if Ascii.eqb c "," then "" else String c (before_comma rest)
  end.

(** [str.isspace] on one character: U+0009..U+000D, U+001C..U+0020,
    U+0085 and U+00A0. *)
Definition isspace (c : ascii) : bool :=
  let n := N_of_ascii c in
  ((9 <=? n)%N && (n <=? 13)%N) || ((28 <=? n)%N && (n <=? 32)%N)
  || (n =? 133)%N || (n =? 160)%N.

Fixpoint lstrip (s : string) : string :=
  match s with
  | EmptyString => ""
  | String c rest => if isspace c then lstrip rest else s
  end.

Fixpoint rstrip (s : string) : string :=
  match s with
  | EmptyString => ""
  | String c rest =>
      match rstrip rest with
      | EmptyString => if isspace c then "" else String c ""
      | r => String c r
      end
  end.

(** [s.strip()]. *)
Definition strip (s : string) : string := rstrip (lstrip s).

Definition get_client_ip (request : Request) : string :=
  match x_forwarded_for request with
  | Some (String c rest) => strip (before_comma (String c rest))
  | _ => default "unknown" (client_host request)
  end.

(** A row of [math_requests] ([MathRequest] of [request_model.py]), without
    its surrogate key [id]. The table is the list of its rows in the order
    they were inserted. *)
Record MathRequest : Type := mkMathRequest {
  req_operation : string;
  req_parameters : string;
  req_result : option string;
  req_execution_time_ms : option Z;
  req_success : bool;
  req_error_message : option string;
  req_timestamp : Z;
  req_client_ip : string;
  req_user_agent : string
}.

(** The query of [get_service_statistics] that counts the requests served
    from the cache: the rows with [execution_time_ms == 0] and
    [success == True]. *)
Definition is_cached_request (row : MathRequest) : bool :=
  match req_execution_time_ms row with
  | Some t => (t =? 0) && req_success row
  | None => false
  end.

Definition cached_requests (requests : list MathRequest) : nat :=
  length (List.filter is_cached_request requests).

(** The two other counts of [get_service_statistics]: all rows, and the
    rows with [success == True]. *)
Definition total_requests (requests : list MathRequest) : nat :=
  length requests.

Definition successful_requests (requests : list MathRequest) : nat :=
  length (List.filter req_success requests).

(** What a route answers: the response model, an [HTTPException], or an
    exception that leaves the route. *)
Inductive http_outcome (R : Type) : Type :=
  | Response (body : R)
  | HTTPException (status_code : Z) (detail : string)
  | Unhandled (e : exn).
Arguments Response {R} body.
Arguments HTTPException {R} status_code detail.
Arguments Unhandled {R} e.

Section controller.

Context {pyfloat : Type} `{!FloatOps pyfloat}.

(** [log_and_persist_request]: inside the [try] the row is built, which
    calls [json.dumps] on the parameters and on the result, then added
    and committed, then refreshed; when one of these raises, the handler
    rolls back and raises again ([on_select] stands for the [SELECT] of
    [refresh]; a commit that raises persists nothing). The call of
    [log_request_info] only writes to the log. *)
Definition log_and_persist_request (requests : list MathRequest) (now : Z)
    (f : faults) (request : Request) (operation : string) (parameters : dict)
    (result : option (number pyfloat)) (execution_time_ms : option Z)
    (success : bool) (error_message : option string)
    : outcome MathRequest * list MathRequest :=
  let client_ip := get_client_ip request in
  let user_agent := default "" (user_agent request) in
  let handler (e : exn) (requests : list MathRequest) :=
    match on_rollback f with
    | Some e' => (Raise e', requests)
    | None => (Raise e, requests)
    end in
  match (parameters ← json.dumps parameters;
         result ← match result with
                  | Some result => Some <$> json_dumps result
                  | None => Ok None
                  end;
         Ok (mkMathRequest operation parameters result execution_time_ms
               success error_message now client_ip user_agent)) with
  | Raise e => handler e requests
  | Ok db_request =>
      match on_commit f with
      | Some e => handler e requests
      | None =>
          match on_select f with
          | Some e => handler e (requests ++ [db_request])
          | None => (Ok db_request, requests ++ [db_request])
          end
      end
  end.

(** The response models [PowerResponse], [FibonacciResponse] and
    [FactorialResponse], which have the same fields. *)
Record MathOperationResponse : Type := mkResponse {
  resp_operation : string;
  resp_parameters : dict;
  resp_result : number pyfloat;
  resp_execution_time_ms : Z;
  resp_timestamp : Z;
  resp_cached : bool
}.

(** The state the routes share: the module-level [math_service], and the
    two tables behind the session. *)
Record app_state : Type := mkApp {
  app_service : MathService;
  app_cache : table;
  app_requests : list MathRequest
}.

(** What one call of a route reads from outside, besides the request. *)
Record route_env : Type := mkRouteEnv {
  route_perf_start : Z;      (* [time.perf_counter()] at the top of the route *)
  dispatch_env : env;        (* for [execute_operation] *)
  log_now : Z;               (* the first call of [log_and_persist_request] *)
  log_faults : faults;
  route_perf_except : Z;     (* [time.perf_counter()] in an [except] clause *)
  relog_now : Z;             (* a second call of [log_and_persist_request] *)
  relog_faults : faults;
  response_now : Z           (* [datetime.utcnow()] for the response *)
}.

(** The two [except] clauses of a route: [ValueError] gives status 400 with
    the message as detail, any other exception status 500. Both persist a
    failure record first; an exception raised while doing so leaves the
    route. *)
Definition route_except (e : exn) (st : app_state) (request : Request)
    (w : route_env) (now : Z) (f : faults) (operation : string)
    (parameters : dict) : http_outcome MathOperationResponse * app_state :=
  let execution_time_ms := (route_perf_except w - route_perf_start w) * 1000 in
  let error_msg :=
    match e with
    | ValueError msg => msg
    | _ => "Internal server error: " +:+ exn_str e
    end in
  let '(logged, requests) :=
    log_and_persist_request (app_requests st) now f request operation
      parameters None (Some execution_time_ms) false (Some error_msg) in
  let st := mkApp (app_service st) (app_cache st) requests in
  match logged with
  | Raise e' => (Unhandled e', st)
  | Ok _ =>
      match e with
      | ValueError msg => (HTTPException 400 error_msg, st)
      | _ => (HTTPException 500 "Internal server error", st)
      end
  end.

(** The body the three routes [calculate_power], [calculate_fibonacci]
    and [calculate_factorial] share. *)
Definition calculate (operation : string) (parameters : dict)
    (st : app_state) (request : Request) (w : route_env)
    : http_outcome MathOperationResponse * app_state :=
  let '(dispatched, svc, db) :=
    execute_operation (app_service st) (app_cache st) (dispatch_env w)
      operation parameters true in
  let st := mkApp svc db (app_requests st) in
  match dispatched with
  | Ok (result, execution_time_ms, cached) =>
      let '(logged, requests) :=
        log_and_persist_request (app_requests st) (log_now w) (log_faults w)
          request operation parameters (Some result) (Some execution_time_ms)
          true None in
      let st := mkApp svc db requests in
      match logged with
      | Ok _ =>
          (Response (mkResponse operation parameters result execution_time_ms
                       (response_now w) cached), st)
      | Raise e =>
          route_except e st request w (relog_now w) (relog_faults w) operation
            parameters
      end
  | Raise e =>
      route_except e st request w (log_now w) (log_faults w) operation
        parameters
  end.


Definition calculate_fibonacci (n : Z) := calculate "fibonacci" [("n", n)].

Definition calculate_factorial (n : Z) := calculate "factorial" [("n", n)].

End controller.

Arguments MathOperationResponse : clear implicits.

(** ** Vocabulary of the cache store statements *)

(** A lowercase hexadecimal digit. *)
Definition is_lower_hex (c : ascii) : bool :=
  let n := N_of_ascii c in
  ((48 <=? n)%N && (n <=? 57)%N) || ((97 <=? n)%N && (n <=? 102)%N).

Section cache_rows.

Context {pyfloat : Type} `{!FloatOps pyfloat}.

(** The rows the service writes: the expiry is set, the hit count is not
    negative, and the result is the JSON text of a number. *)
Definition row_wf (e : CacheEntry) : Prop :=
  is_Some (expires_at e) ∧ 0 ≤ hit_count e
  ∧ ∃ r : number pyfloat, json_dumps r = Ok (result_json e).

Definition table_wf (db : table) : Prop :=
  ∀ k e, db !! k = Some e → row_wf e.

(** The table a dispatch starts its computation from, and the table
    and outcome [set] gives it when the dispatch caches. *)
Definition after_get (db : table) (w : env) (name : string) (params : dict)
    (use_cache : bool) : outcome (option (number pyfloat)) * table :=
  if use_cache then get db (utcnow_get w) (faults_get w) name params
  else (Ok None, db).

Definition after_set (dbg : table) (w : env) (name : string) (params : dict)
    (r : number pyfloat) (use_cache : bool) : outcome () * table :=
  if use_cache
  then set dbg (utcnow_set w) (faults_set w) name params r None
  else (Ok (), dbg).

End cache_rows.

(** ** Vocabulary of the controller statements *)

Definition not_comma (c : ascii) : bool := negb (Ascii.eqb c ",").

Definition first_char (s : string) : option ascii :=
  match s with
  | EmptyString => None
  | String c _ => Some c
  end.

Fixpoint last_char (s : string) : option ascii :=
  match s with
  | EmptyString => None
  | String c rest =>
      match last_char rest with
      | Some c' => Some c'
      | None => Some c
      end
  end.

(** A string that is not empty and neither starts nor ends with a
    whitespace character. *)
Definition unpadded (s : string) : bool :=
  match first_char s, last_char s with
  | Some a, Some b => negb (isspace a) && negb (isspace b)
  | _, _ => false
  end.

(** The rest of a comma-separated header after its first element:
    nothing, or a comma and more. *)
Definition more_elements (tail : string) : bool :=
  match tail with
  | EmptyString => true
  | String c _ => Ascii.eqb c ","
  end.

Section controller_vocabulary.

Context {pyfloat : Type} `{!FloatOps pyfloat}.

(** A request for [operation] on a service whose registry is the one
    [MathService.__init__] builds and whose memo table holds Fibonacci
    numbers, when the parameters have a cache key under which no row is
    cached, the clock of [set] is more than 24 hours before
    [datetime.max], and the session lets [set] finish and both calls of
    [log_and_persist_request] persist their record. *)
Definition served_uncached (st : app_state) (w : route_env)
    (operation : string) (parameters : dict) : Prop :=
  operations (app_service st) = operations MathService_init
  ∧ memo_ok (fib_memo (app_service st))
  ∧ (∃ k, _generate_cache_key operation parameters = Ok k
          ∧ app_cache st !! k = None)
  ∧ is_datetime (utcnow_set (dispatch_env w) + timedelta_hours 24)
  ∧ on_rollback (faults_set (dispatch_env w)) = None
  ∧ log_faults w = no_faults
  ∧ relog_faults w = no_faults.

End controller_vocabulary.

(** The record [log_and_persist_request] builds, from the two JSON
    texts. *)
Definition request_row (now : Z) (request : Request) (operation : string)
    (parameters_text : string) (result_text : option string)
    (execution_time_ms : option Z) (success : bool)
    (error_message : option string) : MathRequest :=
  mkMathRequest operation parameters_text result_text execution_time_ms
    success error_message now (get_client_ip request)
    (default "" (user_agent request)).

(** ** Requests for closed examples *)

(** A request that came through a proxy. *)
Definition proxied_request : Request :=
  mkRequest (Some " 203.0.113.7 , 10.0.0.1") (Some "10.0.0.1")
    (Some "curl/8.0").

(** The application when it starts: a fresh service and empty tables. *)
Definition app_init : app_state := mkApp MathService_init ∅ [].

(** One call of a route at instant [now] with a working session. *)
Definition route_env_at (now : Z) : route_env :=
  mkRouteEnv 5 (env_at now) now no_faults 20 now no_faults now.

(** * Properties *)

(** ** Loops over [range] *)

Lemma range_nil lo hi : hi ≤ lo → range lo hi = [].
Proof. intros. unfold range. apply seqZ_nil. lia. Qed.

Lemma range_split lo mid hi :
  lo ≤ mid ≤ hi → range lo hi = range lo mid ++ range mid hi.
Proof.
  intros. unfold range.
  replace (hi - lo) with ((mid - lo) + (hi - mid)) by lia.
  rewrite seqZ_app by lia. do 2 f_equal. lia.
Qed.

(** ** FactorialOperation *)

Lemma factorial_loop_app l1 l2 r :
  FactorialOperation.loop (l1 ++ l2) r =
  match FactorialOperation.loop l1 r with
  | Ok r' => FactorialOperation.loop l2 r'
  | Raise e => Raise e
  end.
Proof.
  revert r. induction l1 as [|i l1 IH]; intros r; simpl; [done|].
  destruct (FactorialOperation.limit <? r * i); [done|apply IH].
Qed.

Lemma factorial_rows : forallb factorial_row_ok (seqZ 0 167) = true.
Proof. vm_compute. reflexivity. Qed.

Lemma factorial_small n :
  0 ≤ n ≤ 166 →
  FactorialOperation.execute n = Ok (factorial n)
  ∧ factorial n < FactorialOperation.limit.
Proof.
  intros Hn.
  pose proof factorial_rows as H. rewrite forallb_forall in H.
  specialize (H n). unfold factorial_row_ok in H.
  destruct (FactorialOperation.execute n) as [r|e].
  - assert (Hr : (r =? factorial n) && (r <? FactorialOperation.limit) = true).
    { apply H, list_elem_of_In, elem_of_seqZ. lia. }
    apply andb_true_iff in Hr as [->%Z.eqb_eq ?%Z.ltb_lt]. done.
  - discriminate H. apply list_elem_of_In, elem_of_seqZ. lia.
Qed.

Lemma factorial_large n :
  167 ≤ n → FactorialOperation.execute n = Raise FactorialOperation.too_large.
Proof.
  intros Hn. unfold FactorialOperation.execute.
  destruct (Z.eqb_spec n 0); [lia|]. destruct (Z.eqb_spec n 1); [lia|]. simpl.
  rewrite (range_split 2 168 (n + 1)) by lia.
  rewrite factorial_loop_app.
  replace (FactorialOperation.loop (range 2 168) 1)
    with (@Raise Z FactorialOperation.too_large) by (vm_compute; reflexivity).
  done.
Qed.

(** ** FibonacciOperation *)

Lemma fib_rec i : 1 ≤ i → fib (i + 1) = fib (i - 1) + fib i.
Proof.
  intros Hi. unfold fib.
  replace (Z.to_nat (i + 1)) with (S (S (Z.to_nat (i - 1)))) by lia.
  replace (Z.to_nat i) with (S (Z.to_nat (i - 1))) by lia.
  simpl. destruct (fib_pair (Z.to_nat (i - 1))) as [a b]. done.
Qed.

Lemma memo_upto_init : memo_upto 1 FibonacciOperation.init.
Proof.
  split; [lia|]. intros i. unfold FibonacciOperation.init.
  case_bool_decide as Hi.
  - assert (i = 0 ∨ i = 1) as [-> | ->] by lia; done.
  - rewrite !lookup_insert_ne by lia. done.
Qed.

Lemma memo_upto_lookup k m i :
  memo_upto k m → 0 ≤ i ≤ k → m !! i = Some (fib i).
Proof. intros [_ H] Hi. rewrite H. by rewrite bool_decide_eq_true_2. Qed.

Lemma memo_upto_lookup_None k m i :
  memo_upto k m → ¬ (0 ≤ i ≤ k) → m !! i = None.
Proof. intros [_ H] Hi. rewrite H. by rewrite bool_decide_eq_false_2. Qed.

Lemma memo_upto_insert k m :
  memo_upto k m → memo_upto (k + 1) (<[k + 1 := fib (k + 1)]> m).
Proof.
  intros [Hk H]. split; [lia|]. intros i.
  destruct (decide (i = k + 1)) as [->|Hne].
  - rewrite lookup_insert_eq, bool_decide_eq_true_2 by lia. done.
  - rewrite lookup_insert_ne, H by done.
    repeat case_bool_decide; (done || lia).
Qed.

(** The loop from position [i + 1] on, entered with [a, b] the numbers at
    [i - 1] and [i] and a table that covers [0..k], [k >= i]: it does not
    raise, and it leaves the table covering [0..max k (i + cnt)]. *)
Lemma fibonacci_loop_spec (cnt : nat) : ∀ i k m,
  memo_upto k m → 1 ≤ i ≤ k →
  ∃ m', FibonacciOperation.loop (seqZ (i + 1) (Z.of_nat cnt))
          (FibonacciOperation.Locals (fib (i - 1)) (fib i) m)
        = (FibonacciOperation.Locals (fib (i + Z.of_nat cnt - 1))
             (fib (i + Z.of_nat cnt)) m', None)
        ∧ memo_upto (Z.max k (i + Z.of_nat cnt)) m'.
Proof.
  induction cnt as [|cnt IH]; intros i k m Hm Hi.
  - exists m. rewrite seqZ_nil by lia. simpl.
    rewrite Z.add_0_r, Z.max_l by lia. done.
  - rewrite seqZ_cons by lia. simpl.
    replace (Z.pred (Z.of_nat (S cnt))) with (Z.of_nat cnt) by lia.
    replace (Z.succ (i + 1)) with ((i + 1) + 1) by lia.
    destruct (decide (i + 1 ≤ k)) as [Hle|Hgt].
    + rewrite (memo_upto_lookup k m (i + 1)) by (done || lia).
      unfold FibonacciOperation.getitem.
      replace (i + 1 - 1) with i by lia.
      rewrite (memo_upto_lookup k m i), (memo_upto_lookup k m (i + 1))
        by (done || lia).
      simpl.
      destruct (IH (i + 1) k m Hm) as (m' & Hloop & Hm'); [lia|].
      exists m'. replace (i + 1 - 1) with i in Hloop by lia.
      rewrite Hloop. split.
      * do 3 f_equal; lia.
      * replace (Z.max k (i + Z.of_nat (S cnt)))
          with (Z.max k (i + 1 + Z.of_nat cnt)) by lia. done.
    + assert (i = k) as -> by lia.
      rewrite (memo_upto_lookup_None k m (k + 1)) by (done || lia).
      rewrite <- fib_rec by lia.
      destruct (IH (k + 1) (k + 1) _ (memo_upto_insert k m Hm)) as (m' & Hloop & Hm');
        [lia|].
      exists m'. replace (k + 1 - 1) with k in Hloop by lia.
      rewrite Hloop. split.
      * do 3 f_equal; lia.
      * replace (Z.max k (k + Z.of_nat (S cnt)))
          with (Z.max (k + 1) (k + 1 + Z.of_nat cnt)) by lia. done.
Qed.

Lemma fibonacci_memo_nonneg m n :
  memo_ok m → 0 ≤ n →
  ∃ m', FibonacciOperation._fibonacci_memo m n = (Ok (fib n), m') ∧ memo_ok m'.
Proof.
  intros [k Hm] Hn. unfold FibonacciOperation._fibonacci_memo.
  destruct (decide (n ≤ k)) as [Hle|Hgt].
  - rewrite (memo_upto_lookup k m n) by (done || lia).
    exists m. split; [done|by exists k].
  - rewrite (memo_upto_lookup_None k m n) by (done || lia).
    pose proof Hm as [Hk _].
    destruct (Z.ltb_spec n 2); [lia|].
    destruct (fibonacci_loop_spec (Z.to_nat (n - 1)) 1 k m Hm) as (m' & Hloop & Hm');
      [lia|].
    unfold range. replace (n + 1 - 2) with (Z.of_nat (Z.to_nat (n - 1))) by lia.
    change 2 with (1 + 1) at 1. change (fib (1 - 1)) with 0 in Hloop.
    change (fib 1) with 1 in Hloop. rewrite Hloop. simpl.
    unfold FibonacciOperation.getitem.
    rewrite (memo_upto_lookup _ m' n Hm') by lia.
    exists m'. split; [done|by eexists].
Qed.

Lemma fibonacci_memo_negative m n :
  memo_ok m → n < 0 → FibonacciOperation._fibonacci_memo m n = (Ok n, m).
Proof.
  intros [k Hm] Hn. unfold FibonacciOperation._fibonacci_memo.
  rewrite (memo_upto_lookup_None k m n) by (done || lia).
  destruct (Z.ltb_spec n 2); [done|lia].
Qed.

(** C1 (as the code has it): [fact(0) = 1] and [fact(5) = 120]; for every
    [n] in 0..166 the operation returns [n!], which lies under the limit
    [10**300]; from 167 on (so at 170 and at 171) it raises "Factorial
    result too large", and so does every input that has a running product
    [i!], [2 <= i <= n], at or above the limit. *)
Theorem factorial_values_and_limit :
  FactorialOperation.execute 0 = Ok 1
  ∧ FactorialOperation.execute 5 = Ok 120
  ∧ (∀ n, 0 ≤ n ≤ 166 →
       FactorialOperation.execute n = Ok (factorial n)
       ∧ factorial n < FactorialOperation.limit)
  ∧ FactorialOperation.execute 171 = Raise FactorialOperation.too_large
  ∧ (∀ n, 167 ≤ n →
       FactorialOperation.execute n = Raise FactorialOperation.too_large)
  ∧ (∀ n i, 2 ≤ i ≤ n → FactorialOperation.limit ≤ factorial i →
       FactorialOperation.execute n = Raise FactorialOperation.too_large).
Proof.
  split; [done|]. split; [by vm_compute|].
  split; [apply factorial_small|].
  split; [apply factorial_large; lia|].
  split; [apply factorial_large|].
  intros n i Hi Hlim. apply factorial_large.
  destruct (decide (167 ≤ n)) as [|Hn]; [done|].
  destruct (factorial_small i) as [_ ?]; lia.
Qed.

Lemma factorial_values_and_limit_witness :
  FactorialOperation.execute 166 = Ok (factorial 166)
  ∧ factorial 166 < FactorialOperation.limit
  ∧ FactorialOperation.execute 200 = Raise FactorialOperation.too_large.
Proof.
  destruct factorial_values_and_limit as (_ & _ & Hsmall & _ & Hlarge & _).
  destruct (Hsmall 166) as [H1 H2]; [lia|].
  split; [exact H1|]. split; [exact H2|]. apply Hlarge. lia.
Defined.

(** C1 as stated fails at 170: [170!] is above [10**300], and the
    operation raises instead of returning it. *)
Lemma factorial_170_raises :
  FactorialOperation.execute 170 = Raise FactorialOperation.too_large
  ∧ FactorialOperation.limit < factorial 170.
Proof. split; [apply factorial_large; lia|by vm_compute]. Qed.

(** C10: for every negative [n] the range of the loop is empty and
    [FactorialOperation.execute] returns 1 without raising. *)
Theorem factorial_negative n :
  n < 0 →
  range 2 (n + 1) = [] ∧ FactorialOperation.execute n = Ok 1.
Proof.
  intros Hn. assert (Hr : range 2 (n + 1) = []) by (apply range_nil; lia).
  split; [done|]. unfold FactorialOperation.execute. rewrite Hr.
  by destruct ((n =? 0) || (n =? 1)).
Qed.

Lemma factorial_negative_witness :
  range 2 (-3 + 1) = [] ∧ FactorialOperation.execute (-3) = Ok 1.
Proof. apply (factorial_negative (-3)). lia. Defined.

(** C3 (as the code has it): on a negative [n] the Fibonacci operation
    does not raise. Whatever calls came before, it returns [n] itself and
    leaves its memo table as it was. *)
Theorem fibonacci_negative_returns_input m n :
  memo_ok m → n < 0 → FibonacciOperation.execute m n = (Ok n, m).
Proof. apply fibonacci_memo_negative. Qed.

Lemma fibonacci_negative_returns_input_witness :
  FibonacciOperation.execute FibonacciOperation.init (-5)
  = (Ok (-5), FibonacciOperation.init).
Proof.
  apply (fibonacci_negative_returns_input FibonacciOperation.init (-5)).
  - exists 1. exact memo_upto_init.
  - lia.
Defined.

(** C3 as stated fails at -5: the call returns a value. *)
Lemma fibonacci_negative_no_error :
  is_ok (FibonacciOperation.execute FibonacciOperation.init (-5)).1 = true.
Proof. by vm_compute. Qed.

(** C8: on a fresh operation [fib(0) = 0], [fib(1) = 1], [fib(10) = 55],
    [fib(50) = 12586269025] and [fib(1000)] returns the 1000th Fibonacci
    number; in every state the operation can reach, a call on [n >= 0]
    runs its loop over [range(2, n + 1)] to the end and returns the [n]th
    Fibonacci number, leaving a reachable state. *)
Theorem fibonacci_values :
  (FibonacciOperation.execute FibonacciOperation.init 0).1 = Ok 0
  ∧ (FibonacciOperation.execute FibonacciOperation.init 1).1 = Ok 1
  ∧ (FibonacciOperation.execute FibonacciOperation.init 10).1 = Ok 55
  ∧ (FibonacciOperation.execute FibonacciOperation.init 50).1 = Ok 12586269025
  ∧ (FibonacciOperation.execute FibonacciOperation.init 1000).1 = Ok (fib 1000)
  ∧ memo_ok FibonacciOperation.init
  ∧ (∀ m n, memo_ok m → 0 ≤ n →
       ∃ m', FibonacciOperation.execute m n = (Ok (fib n), m') ∧ memo_ok m').
Proof.
  do 5 (split; [by vm_compute|]).
  split; [exists 1; exact memo_upto_init|apply fibonacci_memo_nonneg].
Qed.

Lemma fibonacci_values_witness :
  ∃ m', FibonacciOperation.execute FibonacciOperation.init 20 = (Ok (fib 20), m')
        ∧ memo_ok m'.
Proof.
  destruct fibonacci_values as (_ & _ & _ & _ & _ & Hinit & Hall).
  apply Hall; [exact Hinit|lia].
Defined.

(** ** Strings *)

Lemma string_app_nil_l (s : string) : "" +:+ s = s.
Proof. reflexivity. Qed.

Lemma string_app_cons c (s t : string) : String c s +:+ t = String c (s +:+ t).
Proof. reflexivity. Qed.

Lemma string_app_assoc (s1 s2 s3 : string) :
  (s1 +:+ s2) +:+ s3 = s1 +:+ (s2 +:+ s3).
Proof.
  induction s1 as [|c s1 IH]; [done|].
  rewrite !string_app_cons. by f_equal.
Qed.

Lemma string_length_app (s1 s2 : string) :
  String.length (s1 +:+ s2) = (String.length s1 + String.length s2)%nat.
Proof.
  induction s1 as [|c s1 IH]; [done|].
  rewrite string_app_cons. simpl. by f_equal.
Qed.

Lemma string_app_inv_tail (s1 s2 t : string) : s1 +:+ t = s2 +:+ t → s1 = s2.
Proof.
  revert s2. induction s1 as [|c s1 IH]; intros [|c' s2] H;
    rewrite ?string_app_cons, ?string_app_nil_l in H.
  - done.
  - apply (f_equal String.length) in H. simpl in H.
    rewrite string_length_app in H. lia.
  - apply (f_equal String.length) in H. simpl in H.
    rewrite string_length_app in H. lia.
  - injection H as -> H. f_equal. by apply IH.
Qed.

(** Two strings of [p]-characters, each followed by a character that fails
    [p]: equal concatenations split in the same place. *)
Lemma string_app_delimited (p : ascii → bool) (s1 s2 : string) c1 t1 c2 t2 :
  all_chars p s1 = true → all_chars p s2 = true →
  p c1 = false → p c2 = false →
  s1 +:+ String c1 t1 = s2 +:+ String c2 t2 →
  s1 = s2 ∧ String c1 t1 = String c2 t2.
Proof.
  intros H1 H2 Hc1 Hc2. revert s2 H2.
  induction s1 as [|a s1 IH]; intros [|b s2] H2 H;
    rewrite ?string_app_cons, ?string_app_nil_l in H; simpl in H1, H2.
  - done.
  - injection H as -> _. apply andb_true_iff in H2 as [? _]. congruence.
  - injection H as -> _. apply andb_true_iff in H1 as [? _]. congruence.
  - injection H as -> H.
    apply andb_true_iff in H1 as [_ H1]. apply andb_true_iff in H2 as [_ H2].
    destruct (IH H1 s2 H2 H) as [-> ?]. done.
Qed.

(** ** Decimal integers *)

Lemma pretty_N_char_numeric x : numeric_char (pretty_N_char x) = true.
Proof. unfold pretty_N_char. by repeat case_match. Qed.

Lemma pretty_N_go_numeric x s :
  all_chars numeric_char s = true →
  all_chars numeric_char (pretty_N_go x s) = true.
Proof.
  revert s. induction (N.lt_wf_0 x) as [x _ IH]; intros s Hs.
  destruct (decide (x = 0)%N) as [->|Hx]; [by rewrite pretty_N_go_0|].
  rewrite pretty_N_go_step by lia.
  apply IH; [apply N.div_lt; lia|].
  simpl. by rewrite pretty_N_char_numeric.
Qed.

Lemma pretty_Z_numeric (z : Z) : all_chars numeric_char (pretty z) = true.
Proof.
  unfold pretty, pretty_Z.
  assert (Hpos : ∀ p : positive, all_chars numeric_char (pretty p) = true).
  { intros p. unfold pretty, pretty_positive, pretty, pretty_N.
    destruct (decide (N.pos p = 0%N)); [done|]. by apply pretty_N_go_numeric. }
  destruct z as [|p|p]; [done|apply Hpos|].
  rewrite string_app_cons, string_app_nil_l. simpl. apply Hpos.
Qed.

(** ** json.dumps on parameter dicts *)

Lemma concat_cons_tail x rest :
  String.concat ", " (x :: rest) +:+ "}" = x +:+ dumps_tail rest.
Proof.
  destruct rest as [|y rest]; [done|].
  change (String.concat ", " (x :: y :: rest))
    with (x +:+ ", " +:+ String.concat ", " (y :: rest)).
  by rewrite !string_app_assoc.
Qed.

Lemma dumps_tail_head rest :
  ∃ c t, dumps_tail rest = String c t ∧ numeric_char c = false.
Proof. destruct rest; simpl; eauto. Qed.

Lemma dict_text_items_inj (l1 l2 : dict) :
  l1.*1 = l2.*1 →
  String.concat ", " (item_text <$> l1) +:+ "}"
  = String.concat ", " (item_text <$> l2) +:+ "}" →
  l1 = l2.
Proof.
  revert l2. induction l1 as [|[k v1] l1 IH]; intros [|[k' v2] l2] Hk H;
    try discriminate Hk; [done|].
  injection Hk as <- Hk. rewrite !fmap_cons, !concat_cons_tail in H.
  change (item_text (k, v1))
    with (json.dumps_str k +:+ ": " +:+ pretty v1) in H.
  change (item_text (k, v2))
    with (json.dumps_str k +:+ ": " +:+ pretty v2) in H.
  rewrite !string_app_assoc in H.
  apply (inj (String.app _)) in H. apply (inj (String.app _)) in H.
  destruct (dumps_tail_head (item_text <$> l1)) as (c1 & t1 & E1 & Hc1).
  destruct (dumps_tail_head (item_text <$> l2)) as (c2 & t2 & E2 & Hc2).
  rewrite E1, E2 in H.
  apply (string_app_delimited numeric_char) in H as [Hv Ht];
    auto using pretty_Z_numeric.
  apply (inj pretty) in Hv as ->. f_equal.
  apply IH; [done|]. rewrite <- E1, <- E2 in Ht.
  destruct l1 as [|x1 l1], l2 as [|x2 l2]; try discriminate Hk; [done|].
  unfold dumps_tail in Ht. rewrite !fmap_cons in *.
  by apply (inj (String.app _)) in Ht.
Qed.

(** With the same names in the same order, the text tells the values
    apart. *)
Lemma dict_text_inj (l1 l2 : dict) :
  l1.*1 = l2.*1 → dict_text l1 = dict_text l2 → l1 = l2.
Proof.
  intros Hk H. unfold dict_text in H.
  apply (inj (String.app _)) in H. by apply dict_text_items_inj.
Qed.

(** [json.dumps] returns the text when every value is within the digit
    limit, and raises otherwise. *)
Lemma dumps_int_spec z :
  json.dumps_int z = if json.fits z then Ok (pretty z) else Raise json.digit_limit.
Proof. reflexivity. Qed.

Lemma dumps_items_spec (d : dict) :
  json.dumps_items d
  = if fits_all d then Ok (item_text <$> d) else Raise json.digit_limit.
Proof.
  induction d as [|[k v] d IH]; [done|].
  cbn [json.dumps_items fits_all forallb]. rewrite IH.
  unfold json.dumps_item, json.dumps_int. cbn [snd fst].
  fold (fits_all d).
  destruct (json.fits v); [|done]. by destruct (fits_all d).
Qed.

Lemma dumps_spec (d : dict) :
  json.dumps d = if fits_all d then Ok (dict_text d) else Raise json.digit_limit.
Proof.
  unfold json.dumps. rewrite dumps_items_spec. by destruct (fits_all d).
Qed.

Lemma fits_all_Permutation (d1 d2 : dict) :
  d1 ≡ₚ d2 → fits_all d1 = fits_all d2.
Proof.
  intros Hperm. unfold fits_all.
  induction Hperm as [|x l1 l2 _ IH|x y l|l1 l2 l3 _ IH1 _ IH2]; simpl.
  - done.
  - by rewrite IH.
  - by rewrite !andb_assoc, (andb_comm (json.fits y.2)).
  - by rewrite IH1.
Qed.

(** ** Sorting the items by name *)

Global Instance item_le_trans : Transitive json.item_le.
Proof. intros x y z. unfold json.item_le. apply transitivity. Qed.

Global Instance item_le_total : Total json.item_le.
Proof. intros x y. unfold json.item_le. apply total, _. Qed.

Lemma sorted_Sorted (d : dict) : Sorted json.item_le (json.sorted d).
Proof. apply Sorted_merge_sort, _. Qed.

Lemma sorted_Permutation (d : dict) : json.sorted d ≡ₚ d.
Proof. apply merge_sort_Permutation. Qed.

(** A dict holds a name once, so the name identifies the item. *)
Lemma NoDup_keys_item (d : dict) x y :
  NoDup d.*1 → x ∈ d → y ∈ d → x.1 = y.1 → x = y.
Proof.
  induction d as [|z d IH]; intros Hnd Hx Hy Hxy; [by inv Hx|].
  rewrite fmap_cons in Hnd. apply NoDup_cons in Hnd as [Hz Hnd].
  apply elem_of_cons in Hx as [->|Hx], Hy as [->|Hy]; [done|..|by apply IH].
  - destruct Hz. rewrite Hxy. by apply list_elem_of_fmap_2.
  - destruct Hz. rewrite <- Hxy. by apply list_elem_of_fmap_2.
Qed.

(** Insertion order does not survive the sort. *)
Lemma sorted_reorder (d1 d2 : dict) :
  NoDup d1.*1 → d1 ≡ₚ d2 → json.sorted d1 = json.sorted d2.
Proof.
  intros Hnd Hperm.
  apply (Sorted_unique_strong json.item_le); auto using sorted_Sorted.
  - intros x y Hx Hy Hxy Hyx.
    apply (NoDup_keys_item d1); [done|..].
    + by rewrite <- (sorted_Permutation d1).
    + by rewrite Hperm, <- (sorted_Permutation d2).
    + by apply (anti_symm String.le).
  - by rewrite !sorted_Permutation.
Qed.

(** Two dicts over the same names list them in the same order once
    sorted. *)
Lemma sorted_keys (d1 d2 : dict) :
  NoDup d1.*1 → d1.*1 ≡ₚ d2.*1 → (json.sorted d1).*1 = (json.sorted d2).*1.
Proof.
  intros Hnd Hperm.
  apply (Sorted_unique String.le).
  - apply (Sorted_fmap _ json.item_le); [done|apply sorted_Sorted].
  - apply (Sorted_fmap _ json.item_le); [done|apply sorted_Sorted].
  - by rewrite !sorted_Permutation.
Qed.

(** ** Cache keys *)

(** The string that is hashed and the key: returned when every value is
    within the digit limit; otherwise [json.dumps] raises. *)
Lemma key_data_spec operation (d : dict) :
  key_data operation d
  = if fits_all d then Ok (key_text operation d) else Raise json.digit_limit.
Proof.
  unfold key_data, json.dumps_sort_keys. rewrite dumps_spec.
  rewrite (fits_all_Permutation _ _ (sorted_Permutation d)).
  by destruct (fits_all d).
Qed.

Lemma generate_cache_key_spec operation (d : dict) :
  _generate_cache_key operation d
  = if fits_all d then Ok (cache_key_of operation d)
    else Raise json.digit_limit.
Proof.
  unfold _generate_cache_key. rewrite key_data_spec.
  by destruct (fits_all d).
Qed.

Lemma generate_cache_key_fits operation (d : dict) k :
  _generate_cache_key operation d = Ok k →
  fits_all d = true ∧ k = cache_key_of operation d.
Proof.
  rewrite generate_cache_key_spec. destruct (fits_all d); [|done].
  by intros [= <-].
Qed.

Lemma generate_cache_key_reorder operation (d1 d2 : dict) :
  NoDup d1.*1 → d1 ≡ₚ d2 →
  _generate_cache_key operation d1 = _generate_cache_key operation d2.
Proof.
  intros Hnd Hperm. rewrite !generate_cache_key_spec.
  rewrite (fits_all_Permutation d1 d2 Hperm).
  unfold cache_key_of, key_text. by rewrite (sorted_reorder d1 d2).
Qed.

Lemma key_text_operation op1 op2 (d : dict) :
  key_text op1 d = key_text op2 d → op1 = op2.
Proof. unfold key_text. apply string_app_inv_tail. Qed.

Lemma key_text_values operation (d1 d2 : dict) :
  NoDup d1.*1 → d1.*1 ≡ₚ d2.*1 →
  key_text operation d1 = key_text operation d2 → d1 ≡ₚ d2.
Proof.
  intros Hnd Hk H. unfold key_text in H.
  apply (inj (String.app _)) in H. apply (inj (String.app _)) in H.
  apply dict_text_inj in H; [|by apply sorted_keys].
  by rewrite <- (sorted_Permutation d1), H, sorted_Permutation.
Qed.

Lemma key_data_text operation (d : dict) s :
  key_data operation d = Ok s → s = key_text operation d.
Proof.
  rewrite key_data_spec. destruct (fits_all d); [|done]. by intros [= <-].
Qed.

(** ** SHA-256 on known inputs *)

(** The digests FIPS 180-4 gives for the empty message, for "abc" and for
    its two-block message. *)
Lemma sha256_test_vectors :
  sha256.hexdigest (sha256.encode "")
  = "e3b0c44298fc1c149afbf4c8996fb92427ae41e4649b934ca495991b7852b855"
  ∧ sha256.hexdigest (sha256.encode "abc")
    = "ba7816bf8f01cfea414140de5dae2223b00361a396177a9cb410ff61f20015ad"
  ∧ sha256.hexdigest
      (sha256.encode "abcdbcdecdefdefgefghfghighijhijkijkljklmklmnlmnomnopnopq")
    = "248d6a61d20638b8e5c026930c3e6039a33ce45964ff2167f6ecedd419db06c1".
Proof. repeat split; vm_compute; reflexivity. Qed.

(** The keys CPython computes for two parameter dicts. *)
Lemma generate_cache_key_examples :
  _generate_cache_key "power" [("exponent", 3); ("base", 2)]
  = Ok "8aa5e9145246112592faf140e700e16879d68d97ad4c307c10f46d25ea87a484"
  ∧ _generate_cache_key "fibonacci" [("n", 10)]
    = Ok "92fdce192f1291f658a8430f69ea5660c371ce37c62a1de683902351788adb27".
Proof. split; vm_compute; reflexivity. Qed.

(** ** The digest and its hexadecimal form *)

Lemma digest_range msg : 0 ≤ sha256.digest msg < 2 ^ 256.
Proof.
  unfold sha256.digest. destruct (sha256.hash msg).
  apply Z.mod_pos_bound. lia.
Qed.

Lemma hex_acc n : ∀ x acc, sha256.hex n x acc = sha256.hex n x "" +:+ acc.
Proof.
  induction n as [|n IH]; intros x acc; [done|]. simpl.
  rewrite (IH _ (String _ acc)), (IH _ (String _ "")).
  by rewrite string_app_assoc.
Qed.

Lemma hex_length n : ∀ x, String.length (sha256.hex n x "") = n.
Proof.
  induction n as [|n IH]; intros x; [done|]. simpl.
  rewrite hex_acc, string_length_app, IH. simpl. lia.
Qed.

Lemma string_app_inj_length (s1 s2 t1 t2 : string) :
  String.length s1 = String.length s2 →
  s1 +:+ t1 = s2 +:+ t2 → s1 = s2 ∧ t1 = t2.
Proof.
  revert s2. induction s1 as [|c s1 IH]; intros [|c' s2] Hlen H;
    try discriminate Hlen; [done|].
  rewrite !string_app_cons in H. injection H as -> H.
  injection Hlen as Hlen. destruct (IH s2 Hlen H) as [-> ->]. done.
Qed.

Lemma hex_value_digit a : (a < 16)%N → hex_value (json.hex_digit a) = a.
Proof.
  intros Ha. replace a with (N.of_nat (N.to_nat a)) by lia.
  assert (Hk : (N.to_nat a < 16)%nat) by lia. revert Hk.
  generalize (N.to_nat a) as k. intros k Hk.
  do 16 (destruct k as [|k]; [reflexivity|]). lia.
Qed.

Lemma hex_digit_inj a b :
  (a < 16)%N → (b < 16)%N → json.hex_digit a = json.hex_digit b → a = b.
Proof.
  intros Ha Hb H. apply (f_equal hex_value) in H.
  by rewrite !hex_value_digit in H.
Qed.

Lemma hex_inj n : ∀ x y,
  0 ≤ x < 16 ^ Z.of_nat n → 0 ≤ y < 16 ^ Z.of_nat n →
  sha256.hex n x "" = sha256.hex n y "" → x = y.
Proof.
  induction n as [|n IH]; intros x y Hx Hy H.
  - change (16 ^ Z.of_nat 0) with 1 in *. lia.
  - rewrite Nat2Z.inj_succ, Z.pow_succ_r in Hx, Hy by lia.
    simpl in H. rewrite (hex_acc n (x / 16)), (hex_acc n (y / 16)) in H.
    apply string_app_inj_length in H as [Hhi Hlo]; [|by rewrite !hex_length].
    injection Hlo as Hlo.
    apply hex_digit_inj in Hlo.
    + apply IH in Hhi.
      * rewrite (Z.div_mod x 16), (Z.div_mod y 16) by lia.
        apply (f_equal Z.of_N) in Hlo. rewrite !Z2N.id in Hlo; [lia|..];
          apply Z.mod_pos_bound; lia.
      * split; [apply Z.div_pos; lia|apply Z.div_lt_upper_bound; lia].
      * split; [apply Z.div_pos; lia|apply Z.div_lt_upper_bound; lia].
    + pose proof (Z.mod_pos_bound x 16). lia.
    + pose proof (Z.mod_pos_bound y 16). lia.
Qed.

(** The key is the digest, written out. *)
Lemma hexdigest_inj m1 m2 :
  sha256.hexdigest m1 = sha256.hexdigest m2 ↔ sha256.digest m1 = sha256.digest m2.
Proof.
  split; [|by unfold sha256.hexdigest; intros ->].
  intros H. apply (hex_inj 64); [| |done].
  - change (16 ^ Z.of_nat 64) with (2 ^ 256). apply digest_range.
  - change (16 ^ Z.of_nat 64) with (2 ^ 256). apply digest_range.
Qed.

(** ** UTF-8 *)

Lemma decode_first_encode c l :
  decode_first (sha256.encode_char c ++ l) = Some (c, l).
Proof. destruct c as [[] [] [] [] [] [] [] []]; reflexivity. Qed.

Lemma encode_inj s1 s2 : sha256.encode s1 = sha256.encode s2 → s1 = s2.
Proof.
  revert s2. induction s1 as [|c1 s1 IH]; intros [|c2 s2] H; simpl in H.
  - done.
  - apply (f_equal decode_first) in H. by rewrite decode_first_encode in H.
  - apply (f_equal decode_first) in H. by rewrite decode_first_encode in H.
  - apply (f_equal decode_first) in H. rewrite !decode_first_encode in H.
    injection H as -> H. f_equal. by apply IH.
Qed.

(** ** More inputs than digests *)

(** A function from [0..n] into [0..n-1] takes some value twice. *)
Lemma pigeonhole n : 0 ≤ n → ∀ f : Z → Z,
  (∀ k, 0 ≤ k ≤ n → 0 ≤ f k < n) →
  ∃ i j, 0 ≤ i < j ∧ j ≤ n ∧ f i = f j.
Proof.
  intros Hn. pattern n. apply natlike_ind; [| |done]; clear n Hn.
  - intros f Hf. specialize (Hf 0). lia.
  - intros n Hn IH f Hf.
    destruct (decide (Exists (λ i, f i = f (Z.succ n)) (seqZ 0 (Z.succ n))))
      as [Hex|Hno].
    + apply Exists_exists in Hex as (i & Hi & Heq).
      apply elem_of_seqZ in Hi. exists i, (Z.succ n). lia.
    + assert (Hfresh : ∀ i, 0 ≤ i ≤ n → f i ≠ f (Z.succ n)).
      { intros i Hi Heq. apply Hno, Exists_exists. exists i.
        split; [apply elem_of_seqZ; lia|done]. }
      destruct (IH (λ k, if decide (f k = n) then f (Z.succ n) else f k))
        as (i & j & Hij & Hj & Heq).
      { intros k Hk. pose proof (Hf k). pose proof (Hf (Z.succ n)).
        pose proof (Hfresh k Hk). case_decide; lia. }
      exists i, j. split; [done|]. split; [lia|].
      pose proof (Hfresh i). pose proof (Hfresh j).
      repeat case_decide; lia.
Qed.

(** C5 (as the code has it): the key does not depend on the order in
    which the parameters were inserted (in either order [json.dumps]
    returns the key or raises the same exception), and the two orders of
    [{base: 2, exponent: 3}] give one key, which differs from the key of
    [{base: 2, exponent: 4}]. A change of the operation name, or of the
    value of a parameter, changes the string that is hashed; two different
    strings get the same key only if SHA-256 gives their encodings the
    same digest. *)
Theorem cache_key_reorder_and_change :
  (∀ operation (d1 d2 : dict), NoDup d1.*1 → d1 ≡ₚ d2 →
     _generate_cache_key operation d1 = _generate_cache_key operation d2)
  ∧ (∃ k k',
       _generate_cache_key "power" [("base", 2); ("exponent", 3)] = Ok k
       ∧ _generate_cache_key "power" [("exponent", 3); ("base", 2)] = Ok k
       ∧ _generate_cache_key "power" [("base", 2); ("exponent", 4)] = Ok k'
       ∧ k ≠ k')
  ∧ (∀ op1 op2 (d : dict) s1 s2, op1 ≠ op2 →
       key_data op1 d = Ok s1 → key_data op2 d = Ok s2 → s1 ≠ s2)
  ∧ (∀ operation (d1 d2 : dict) s1 s2,
       NoDup d1.*1 → d1.*1 ≡ₚ d2.*1 → ¬ d1 ≡ₚ d2 →
       key_data operation d1 = Ok s1 → key_data operation d2 = Ok s2 →
       s1 ≠ s2)
  ∧ (∀ op1 (d1 : dict) op2 (d2 : dict) s1 s2 k,
       key_data op1 d1 = Ok s1 → key_data op2 d2 = Ok s2 → s1 ≠ s2 →
       _generate_cache_key op1 d1 = Ok k →
       _generate_cache_key op2 d2 = Ok k →
       sha256.encode s1 ≠ sha256.encode s2
       ∧ sha256.digest (sha256.encode s1) = sha256.digest (sha256.encode s2)).
Proof.
  split; [apply generate_cache_key_reorder|].
  split.
  { eexists _, _. split; [vm_compute; reflexivity|].
    split; [vm_compute; reflexivity|]. split; [vm_compute; reflexivity|].
    intros H. discriminate H. }
  split.
  { intros op1 op2 d s1 s2 Hne H1 H2 Heq.
    apply key_data_text in H1, H2. subst.
    by apply Hne, (key_text_operation op1 op2 d). }
  split.
  { intros op d1 d2 s1 s2 Hnd Hk Hne H1 H2 Heq.
    apply key_data_text in H1, H2. subst.
    by apply Hne, (key_text_values op). }
  intros op1 d1 op2 d2 s1 s2 k H1 H2 Hne Hk1 Hk2.
  unfold _generate_cache_key in Hk1, Hk2. rewrite H1 in Hk1. rewrite H2 in Hk2.
  simpl in Hk1, Hk2. split.
  - intros He. by apply Hne, encode_inj.
  - apply hexdigest_inj. congruence.
Qed.

Lemma cache_key_reorder_and_change_witness :
  _generate_cache_key "fibonacci" [("n", 7); ("m", 1)]
  = _generate_cache_key "fibonacci" [("m", 1); ("n", 7)].
Proof.
  destruct cache_key_reorder_and_change as [Hreorder _].
  apply Hreorder.
  - apply (bool_decide_unpack _). vm_compute. reflexivity.
  - apply perm_swap.
Defined.

(** C5 as stated fails: there are more parameter values than digests, so
    two dicts [{n: n1}] and [{n: n2}] with different values share a key. *)
Lemma cache_key_collision :
  ∃ (n1 n2 : Z) k, n1 ≠ n2
    ∧ _generate_cache_key "fibonacci" [("n", n1)] = Ok k
    ∧ _generate_cache_key "fibonacci" [("n", n2)] = Ok k.
Proof.
  destruct (pigeonhole (2 ^ 256) ltac:(lia)
    (λ k, sha256.digest (sha256.encode (key_text "fibonacci" [("n", k)]))))
    as (i & j & Hij & Hj & Heq).
  { intros k _. apply digest_range. }
  assert (Hfits : ∀ n, 0 ≤ n ≤ 2 ^ 256 → fits_all [("n", n)] = true).
  { intros n Hn. unfold fits_all. simpl. rewrite andb_true_r.
    unfold json.fits. apply Z.ltb_lt. rewrite Z.abs_eq by lia.
    eapply Z.le_lt_trans; [apply Hn|]. by vm_compute. }
  exists i, j, (cache_key_of "fibonacci" [("n", i)]).
  split; [lia|]. rewrite !generate_cache_key_spec, !Hfits by lia.
  split; [done|]. f_equal. symmetry. by apply hexdigest_inj.
Qed.

(** ** json.loads after json.dumps, on ints *)

Lemma digit_of_pretty_N_char d :
  (d < 10)%N → json.digit_of (pretty_N_char d) = Some d.
Proof.
  intros Hd. replace d with (N.of_nat (N.to_nat d)) by lia.
  assert (Hk : (N.to_nat d < 10)%nat) by lia. revert Hk.
  generalize (N.to_nat d) as k. intros k Hk.
  do 10 (destruct k as [|k]; [reflexivity|]). lia.
Qed.

(** Reading the digits that [pretty_N_go] wrote in front of [s]. *)
Lemma digits_to_N_pretty x : ∀ s acc,
  ∃ m, json.digits_to_N (pretty_N_go x s) acc = json.digits_to_N s m
       ∧ (acc = 0%N → m = x).
Proof.
  induction (N.lt_wf_0 x) as [x _ IH]; intros s acc.
  destruct (decide (x = 0)%N) as [->|Hx].
  - exists acc. by rewrite pretty_N_go_0.
  - rewrite pretty_N_go_step by lia.
    destruct (IH (x `div` 10)%N ltac:(apply N.div_lt; lia)
                (String (pretty_N_char (x `mod` 10)) s) acc) as (m & Hm & Hacc).
    exists (10 * m + x `mod` 10)%N. split.
    + rewrite Hm. simpl. rewrite digit_of_pretty_N_char; [done|].
      apply N.mod_lt. lia.
    + intros ->. rewrite Hacc by done.
      symmetry. apply N.div_mod. lia.
Qed.

(** A positive number is written with a leading digit 1..9. *)
Lemma pretty_N_go_head x s :
  (0 < x)%N →
  ∃ c r, pretty_N_go x s = String c r ∧ (49 ≤ N_of_ascii c ≤ 57)%N.
Proof.
  revert s. induction (N.lt_wf_0 x) as [x _ IH]; intros s Hx.
  rewrite pretty_N_go_step by done.
  destruct (decide (x `div` 10 = 0)%N) as [Hz|Hnz].
  - rewrite Hz, pretty_N_go_0. eexists _, _. split; [done|].
    assert (Hlt : (x < 10)%N).
    { destruct (decide (x < 10)%N); [done|].
      assert (1 ≤ x `div` 10)%N; [|lia].
      apply N.div_le_lower_bound; lia. }
    rewrite N.mod_small by done.
    replace x with (N.of_nat (N.to_nat x)) by lia.
    assert (Hk : (0 < N.to_nat x < 10)%nat) by lia. revert Hk.
    generalize (N.to_nat x) as k. intros k Hk.
    destruct k as [|k]; [lia|].
    do 9 (destruct k as [|k]; [vm_compute; split; discriminate|]). lia.
  - apply IH; [apply N.div_lt; lia|by apply N.neq_0_lt_0].
Qed.

Lemma parse_nat_pretty (p : positive) :
  json.parse_nat (pretty p) = Some (N.pos p)
  ∧ ∃ c r, pretty p = String c r ∧ (49 ≤ N_of_ascii c ≤ 57)%N.
Proof.
  unfold pretty, pretty_positive, pretty, pretty_N.
  destruct (decide (N.pos p = 0%N)); [done|].
  destruct (pretty_N_go_head (N.pos p) "") as (c & r & E & Hc); [lia|].
  split; [|eauto]. unfold json.parse_nat. rewrite E.
  destruct (Ascii.eqb_spec c "0") as [->|_];
    [change (N_of_ascii "0") with 48%N in Hc; lia|].
  rewrite <- E.
  destruct (digits_to_N_pretty (N.pos p) "" 0) as (m & -> & Hm).
  simpl. by rewrite Hm.
Qed.

Lemma parse_int_pretty (z : Z) : json.parse_int (pretty z) = Some z.
Proof.
  destruct z as [|p|p]; [done|..].
  - change (pretty (Z.pos p)) with (pretty p).
    destruct (parse_nat_pretty p) as (Hp & c & r & E & Hc).
    unfold json.parse_int. rewrite E.
    destruct (Ascii.eqb_spec c "-") as [->|_];
      [change (N_of_ascii "-") with 45%N in Hc; lia|].
    rewrite <- E, Hp. done.
  - change (pretty (Z.neg p)) with (String "-" (pretty p)).
    destruct (parse_nat_pretty p) as (Hp & _).
    unfold json.parse_int. rewrite Ascii.eqb_refl, Hp. done.
Qed.

(** A decimal integer has no whitespace around it to skip. *)
Lemma numeric_not_ws c : numeric_char c = true → json.is_ws c = false.
Proof. destruct c as [[] [] [] [] [] [] [] []]; vm_compute; congruence. Qed.

Lemma skip_ws_numeric s :
  all_chars numeric_char s = true → json.skip_ws s = s.
Proof.
  destruct s as [|c s]; [done|]. simpl.
  intros [Hc _]%andb_true_iff. by rewrite (numeric_not_ws c).
Qed.

Lemma drop_ws_end_numeric s :
  all_chars numeric_char s = true → json.drop_ws_end s = s.
Proof.
  induction s as [|c s IH]; [done|]. simpl.
  intros [Hc Hs]%andb_true_iff. rewrite IH by done.
  destruct s; [by rewrite (numeric_not_ws c)|done].
Qed.

Lemma strip_ws_numeric s :
  all_chars numeric_char s = true → json.strip_ws s = s.
Proof.
  intros Hs. unfold json.strip_ws.
  by rewrite skip_ws_numeric, drop_ws_end_numeric.
Qed.

(** ** The cache store *)

Section cache_properties.

Context {pyfloat : Type} `{!FloatOps pyfloat}.

(** An int that [json.dumps] accepts is read back by [json.loads]. *)
Lemma json_loads_dumps_int z text :
  json_dumps (PyInt z) = Ok text → json_loads text = Some (PyInt z).
Proof.
  simpl. rewrite dumps_int_spec. destruct (json.fits z) eqn:Hfits; [|done].
  intros [= <-]. unfold json_loads.
  rewrite strip_ws_numeric by apply pretty_Z_numeric.
  by rewrite parse_int_pretty, Hfits.
Qed.

Lemma json_dumps_int_fits z :
  json.fits z = true → json_dumps (PyInt z) = Ok (pretty z).
Proof. intros Hfits. simpl. by rewrite dumps_int_spec, Hfits. Qed.

(** The expiry [set] computes with the default TTL. *)
Lemma timedelta_ok hours :
  -87649416 ≤ hours ≤ 87649416 → timedelta hours = Ok (timedelta_hours hours).
Proof.
  intros Hh. unfold timedelta.
  assert (Hd : -3652059 ≤ hours `div` 24 ≤ 3652059).
  { split; [apply Z.div_le_lower_bound|apply Z.div_le_upper_bound]; lia. }
  destruct (Z.ltb_spec (hours `div` 24) (- 2 ^ 31)); [lia|].
  destruct (Z.leb_spec (2 ^ 31) (hours `div` 24)); [lia|]. simpl.
  destruct (Z.ltb_spec 999999999 (Z.abs (hours `div` 24))); [lia|done].
Qed.

Lemma datetime_add_ok t delta :
  is_datetime (t + delta) → datetime_add t delta = Ok (t + delta).
Proof.
  intros [Hlo Hhi]. unfold datetime_add.
  destruct (Z.leb_spec 0 (t + delta)); [|lia].
  destruct (Z.leb_spec (t + delta) datetime_max); [done|lia].
Qed.

Lemma datetime_add_inv t delta t' :
  datetime_add t delta = Ok t' → t' = t + delta ∧ is_datetime t'.
Proof.
  unfold datetime_add, is_datetime.
  destruct (Z.leb_spec 0 (t + delta)); [|done].
  destruct (Z.leb_spec (t + delta) datetime_max); [|done].
  simpl. intros [= <-]. lia.
Qed.

Lemma timedelta_inv hours delta :
  timedelta hours = Ok delta → delta = timedelta_hours hours.
Proof. unfold timedelta. repeat case_match; by intros [= <-]. Qed.

(** The two lines of [set] before its [try]. *)
Lemma expiry_ok now hours :
  is_datetime now → is_datetime (now + timedelta_hours hours) →
  (delta ← timedelta hours; datetime_add now delta)
  = Ok (now + timedelta_hours hours).
Proof.
  intros Hnow Hexp. rewrite timedelta_ok.
  - simpl. by apply datetime_add_ok.
  - unfold is_datetime, datetime_max, timedelta_hours in *. lia.
Qed.

Lemma expiry_default_ok now :
  is_datetime (now + timedelta_hours 24) →
  (delta ← timedelta 24; datetime_add now delta)
  = Ok (now + timedelta_hours 24).
Proof.
  intros Hexp. rewrite timedelta_ok by lia. simpl. by apply datetime_add_ok.
Qed.

Lemma expiry_inv now hours t :
  (delta ← timedelta hours; datetime_add now delta) = Ok t →
  t = now + timedelta_hours hours ∧ is_datetime t.
Proof.
  destruct (timedelta hours) as [delta|e] eqn:Hd; [|done]. simpl.
  apply timedelta_inv in Hd as ->. apply datetime_add_inv.
Qed.

(** [get] raises exactly what the computation of the key raises. *)
Lemma get_raises db now f operation parameters e :
  _generate_cache_key operation parameters = Raise e →
  get db now f operation parameters = (Raise e, db).
Proof. intros Hk. unfold get. by rewrite Hk. Qed.

(** [get] on a row that the query selects. *)
Lemma get_live db now operation parameters k e :
  _generate_cache_key operation parameters = Ok k →
  db !! k = Some e →
  expires_after e now = true →
  get db now no_faults operation parameters
  = (Ok (json_loads (result_json e)), <[k := incr_hit_count e]> db).
Proof. intros Hk He Hlive. unfold get. rewrite Hk. simpl. by rewrite He, Hlive. Qed.

(** [get] on a row that the query does not select, or on no row. *)
Lemma get_not_selected db now f operation parameters k :
  _generate_cache_key operation parameters = Ok k →
  (∀ e, db !! k = Some e → expires_after e now = false) →
  get db now f operation parameters = (Ok None, db).
Proof.
  intros Hk H. unfold get. rewrite Hk. destruct (on_select f); [done|].
  destruct (db !! k) as [e|] eqn:He; [|done]. by rewrite (H e).
Qed.

(** Whatever the session does, [get] either raises or misses, and leaves
    the table alone, or hits the selected row. *)
Lemma get_cases db now f operation parameters :
  (∃ e, get db now f operation parameters = (Raise e, db))
  ∨ get db now f operation parameters = (Ok None, db)
  ∨ ∃ k e, _generate_cache_key operation parameters = Ok k
           ∧ db !! k = Some e
           ∧ expires_after e now = true
           ∧ get db now f operation parameters
             = (Ok (json_loads (result_json e)), <[k := incr_hit_count e]> db).
Proof.
  unfold get. destruct (_generate_cache_key operation parameters) as [k|e];
    [|left; by eexists].
  right. destruct (on_select f); [by left|].
  destruct (db !! k) as [e|] eqn:He; [|by left].
  destruct (expires_after e now) eqn:Hlive; [|by left].
  destruct (on_commit f); [by left|]. right. by exists k, e.
Qed.

(** The row [set] builds, when both calls of [json.dumps] return. *)
Lemma set_entry_spec existing now expires operation parameters
    (result : number pyfloat) e' :
  set_entry existing now expires operation parameters result = Ok e' →
  ∃ ptext rtext, json.dumps parameters = Ok ptext
                 ∧ json_dumps result = Ok rtext
                 ∧ e' = written_entry existing now operation ptext rtext expires.
Proof.
  unfold set_entry, written_entry.
  destruct existing as [e|], (json.dumps parameters) as [ptext|],
    (json_dumps result) as [rtext|]; simpl; try done;
    intros [= <-]; by eexists _, _.
Qed.

Lemma set_entry_ok existing now expires operation parameters
    (result : number pyfloat) ptext rtext :
  json.dumps parameters = Ok ptext → json_dumps result = Ok rtext →
  set_entry existing now expires operation parameters result
  = Ok (written_entry existing now operation ptext rtext expires).
Proof.
  intros Hp Hr. unfold set_entry, written_entry.
  destruct existing; by rewrite Hp, Hr.
Qed.

Lemma written_entry_hit_count existing now operation ptext rtext expires :
  hit_count (written_entry existing now operation ptext rtext expires)
  = match existing with
    | Some e => hit_count e
    | None => 0
    end.
Proof. by destruct existing. Qed.

(** A dict that has a key has a text. *)
Lemma generate_cache_key_dumps operation (parameters : dict) k :
  _generate_cache_key operation parameters = Ok k →
  json.dumps parameters = Ok (dict_text parameters).
Proof.
  intros [Hfits _]%generate_cache_key_fits. by rewrite dumps_spec, Hfits.
Qed.

(** [set] with a working session, when nothing raises before or inside
    the [try]. *)
Lemma set_stores db now operation parameters (result : number pyfloat)
    ttl_hours k rtext :
  _generate_cache_key operation parameters = Ok k →
  json_dumps result = Ok rtext →
  (delta ← timedelta (effective_ttl ttl_hours); datetime_add now delta)
  = Ok (now + timedelta_hours (effective_ttl ttl_hours)) →
  set db now no_faults operation parameters result ttl_hours
  = (Ok (),
     <[k := written_entry (db !! k) now operation (dict_text parameters) rtext
              (now + timedelta_hours (effective_ttl ttl_hours))]> db).
Proof.
  intros Hk Hr Hexp. unfold set. rewrite Hk.
  fold (effective_ttl ttl_hours). rewrite Hexp. simpl.
  by rewrite (set_entry_ok _ _ _ _ _ _ (dict_text parameters) rtext)
    by eauto using generate_cache_key_dumps.
Qed.

Lemma set_no_faults db now operation parameters (result : number pyfloat)
    k rtext :
  _generate_cache_key operation parameters = Ok k →
  json_dumps result = Ok rtext →
  is_datetime (now + timedelta_hours 24) →
  set db now no_faults operation parameters result None
  = (Ok (),
     <[k := written_entry (db !! k) now operation (dict_text parameters) rtext
              (now + timedelta_hours 24)]> db).
Proof.
  intros Hk Hr Hexp.
  apply (set_stores db now operation parameters result None k rtext);
    [done..|]. by apply expiry_default_ok.
Qed.

(** Whatever the session does, [set] either leaves the table alone or
    writes a row under its key, built over the row that was there. *)
Lemma set_cases db now f operation parameters (result : number pyfloat)
    ttl_hours :
  (set db now f operation parameters result ttl_hours).2 = db
  ∨ ∃ k ptext rtext t,
      _generate_cache_key operation parameters = Ok k
      ∧ json.dumps parameters = Ok ptext
      ∧ json_dumps result = Ok rtext
      ∧ is_datetime t
      ∧ t = now + timedelta_hours (effective_ttl ttl_hours)
      ∧ set db now f operation parameters result ttl_hours
        = (Ok (),
           <[k := written_entry (db !! k) now operation ptext rtext t]> db).
Proof.
  unfold set, set_handler.
  destruct (_generate_cache_key operation parameters) as [k|e]; [|by left].
  fold (effective_ttl ttl_hours).
  destruct (delta ← timedelta (effective_ttl ttl_hours); datetime_add now delta)
    as [t|e] eqn:Hexp; [|by left].
  apply expiry_inv in Hexp as [-> Hdt].
  destruct (on_select f); [left; by destruct (on_rollback f)|].
  destruct (set_entry _ _ _ _ _ _) as [e'|e] eqn:Hentry;
    [|left; by destruct (on_rollback f)].
  destruct (on_commit f); [left; by destruct (on_rollback f)|].
  apply set_entry_spec in Hentry as (ptext & rtext & Hp & Hr & ->).
  right. by exists k, ptext, rtext, (now + timedelta_hours (effective_ttl ttl_hours)).
Qed.

(** One call: where it changes the table, it writes the row of its key. *)
Lemma cache_step_cases db (op : cache_op) :
  cache_step db op = db
  ∨ ∃ k e', cache_step db op = <[k := e']> db
            ∧ match db !! k with
              | Some e => hit_count e ≤ hit_count e'
              | None => hit_count e' = 0
              end.
Proof.
  destruct op as [now f name params|now f name params result ttl]; simpl.
  - destruct (get_cases db now f name params)
      as [[e ->]|[->|(k & e & _ & He & _ & ->)]]; [by left..|].
    right. eexists _, _. split; [done|]. rewrite He. simpl. lia.
  - destruct (set_cases db now f name params result ttl)
      as [->|(k & ptext & rtext & t & _ & _ & _ & _ & _ & ->)]; [by left|].
    right. eexists _, _. split; [done|]. rewrite written_entry_hit_count.
    by destruct (db !! k).
Qed.

Lemma cache_step_keeps db (op : cache_op) k e :
  db !! k = Some e →
  ∃ e', cache_step db op !! k = Some e' ∧ hit_count e ≤ hit_count e'.
Proof.
  intros He.
  destruct (cache_step_cases db op) as [->|(k' & e' & -> & Hk')];
    [by exists e|].
  destruct (decide (k' = k)) as [->|Hne].
  - rewrite He in Hk'. exists e'. by rewrite lookup_insert_eq.
  - exists e. by rewrite lookup_insert_ne.
Qed.

Lemma cache_step_creates db (op : cache_op) k e :
  db !! k = None → cache_step db op !! k = Some e → hit_count e = 0.
Proof.
  intros Hnone.
  destruct (cache_step_cases db op) as [->|(k' & e' & -> & Hk')];
    [congruence|].
  destruct (decide (k' = k)) as [->|Hne].
  - rewrite Hnone in Hk'. rewrite lookup_insert_eq. congruence.
  - rewrite lookup_insert_ne by done. congruence.
Qed.

Lemma cache_run_keeps (ops : list cache_op) : ∀ db k e,
  db !! k = Some e →
  ∃ e', cache_run db ops !! k = Some e' ∧ hit_count e ≤ hit_count e'.
Proof.
  induction ops as [|op ops IH]; intros db k e He; [by exists e|].
  destruct (cache_step_keeps db op k e He) as (e1 & He1 & Hle1).
  destruct (IH _ k e1 He1) as (e' & He' & Hle'). exists e'. split; [done|lia].
Qed.

End cache_properties.

Section cache_store_laws.

Context {pyfloat : Type} `{!FloatOps pyfloat}.

(** C2 (as the code has it): with a working session, and parameters that
    have a cache key, [get] returns the stored result, decoded, exactly
    when a row for the key exists and its [expires_at] is set and
    strictly in the future. A row whose [expires_at] is NULL is never
    returned; a row whose [expires_at] is not in the future is not
    returned either, and the row stays in the table. *)
Theorem get_returns_unexpired_rows db now operation parameters k :
  _generate_cache_key operation parameters = Ok k →
  (∀ e t, db !! k = Some e → expires_at e = Some t → now < t →
     (get db now no_faults operation parameters).1
     = Ok (json_loads (result_json e)))
  ∧ (∀ e z, db !! k = Some e → expires_after e now = true →
     json_dumps (PyInt z) = Ok (result_json e) →
     (get db now no_faults operation parameters).1 = Ok (Some (PyInt z)))
  ∧ (∀ e, db !! k = Some e → expires_at e = None →
     get db now no_faults operation parameters = (Ok None, db))
  ∧ (∀ e t, db !! k = Some e → expires_at e = Some t → t ≤ now →
     get db now no_faults operation parameters = (Ok None, db))
  ∧ (db !! k = None →
     get db now no_faults operation parameters = (Ok None, db)).
Proof.
  intros Hk. repeat split.
  - intros e t He Ht Hlt. rewrite (get_live _ _ _ _ k e); [done..|].
    unfold expires_after. rewrite Ht. by apply Z.ltb_lt.
  - intros e z He Hlive Hres. rewrite (get_live _ _ _ _ k e) by done.
    simpl. by rewrite (json_loads_dumps_int z).
  - intros e He Ht. apply (get_not_selected _ _ _ _ _ k); [done|].
    intros e' ?. simplify_eq. unfold expires_after. by rewrite Ht.
  - intros e t He Ht Hle. apply (get_not_selected _ _ _ _ _ k); [done|].
    intros e' ?. simplify_eq.
    unfold expires_after. rewrite Ht. by apply Z.ltb_ge.
  - intros Hnone. apply (get_not_selected _ _ _ _ _ k); [done|].
    intros e' ?. simplify_eq.
Qed.

(** C9: the hit count of a row starts at 0 when [set] creates the row;
    under every sequence of [get] and [set] calls, whatever the session
    does in each, a row stays in the table and its hit count never
    decreases; with a working session, [get] on an unexpired row adds one
    to it, and [set] on an existing key replaces the result, the expiry
    and the parameters and keeps the hit count. *)
Theorem hit_count_monotone :
  (∀ db (op : cache_op) k e,
     db !! k = None → cache_step db op !! k = Some e → hit_count e = 0)
  ∧ (∀ (ops : list cache_op) db k e,
     db !! k = Some e →
     ∃ e', cache_run db ops !! k = Some e' ∧ hit_count e ≤ hit_count e')
  ∧ (∀ db now operation parameters k e,
     _generate_cache_key operation parameters = Ok k →
     db !! k = Some e →
     expires_after e now = true →
     (get db now no_faults operation parameters).2 !! k
     = Some (incr_hit_count e)
     ∧ hit_count (incr_hit_count e) = hit_count e + 1)
  ∧ (∀ db now name params (result : number pyfloat) k text e,
     _generate_cache_key name params = Ok k →
     json_dumps result = Ok text →
     is_datetime (now + timedelta_hours 24) →
     db !! k = Some e →
     ∃ e', (set db now no_faults name params result None).2 !! k = Some e'
           ∧ result_json e' = text
           ∧ expires_at e' = Some (now + timedelta_hours 24)
           ∧ json.dumps params = Ok (parameters e')
           ∧ hit_count e' = hit_count e).
Proof.
  split; [apply cache_step_creates|].
  split; [apply cache_run_keeps|].
  split.
  - intros db now name params k e Hk He Hlive.
    rewrite (get_live _ _ _ _ k e) by done. simpl.
    by rewrite lookup_insert_eq.
  - intros db now name params result k text e Hk Hr Hexp He.
    rewrite (set_no_faults _ _ _ _ _ k text) by done. simpl.
    rewrite lookup_insert_eq.
    eexists. split; [done|]. rewrite He. simpl.
    do 2 (split; [done|]). split; [|done].
    by eapply generate_cache_key_dumps.
Qed.

End cache_store_laws.

(** ** The dispatcher *)

Section dispatcher_properties.

Context {pyfloat : Type} `{!FloatOps pyfloat}.

(** A call of an operation leaves the registry as it was. *)
Lemma call_execute_operations operation svc params r svc' :
  call_execute (pyfloat:=pyfloat) operation svc params = (r, svc') →
  operations svc' = operations svc.
Proof.
  unfold call_execute. destruct operation; intros H; simplify_eq; try done.
  repeat case_match; by simplify_eq.
Qed.

(** The dispatch on a registered name, once [get] has answered. *)
Lemma execute_operation_get_raises svc db w name params operation e db' :
  operations svc !! name = Some operation →
  get db (utcnow_get w) (faults_get w) name params = (Raise e, db') →
  execute_operation svc db w name params true = (Raise e, svc, db').
Proof. intros Hop Hget. unfold execute_operation. by rewrite Hop, Hget. Qed.




(** What leaves [set] before its [try]. *)
Lemma set_expiry_raises db now f name params (r : number pyfloat) ttl_hours k e :
  _generate_cache_key name params = Ok k →
  (delta ← timedelta (effective_ttl ttl_hours); datetime_add now delta)
  = Raise e →
  set db now f name params r ttl_hours = (Raise e, db).
Proof.
  intros Hk Hexp. unfold set. rewrite Hk.
  fold (effective_ttl ttl_hours). by rewrite Hexp.
Qed.


End dispatcher_properties.

Section dispatcher_laws.

Context {pyfloat : Type} `{!FloatOps pyfloat}.


(** C6: a name that is not in the registry makes the dispatch raise
    "Unsupported operation: <name>" at once: the service (so the memo of
    the Fibonacci operation) and the cache table are returned as they
    were, whatever the session would have done. *)
Theorem unknown_operation_raises svc db w name params use_cache :
  operations svc !! name = None →
  execute_operation svc db w name params use_cache
  = (Raise (ValueError ("Unsupported operation: " +:+ name)), svc, db).
Proof. intros Hname. unfold execute_operation. by rewrite Hname. Qed.

(** Once the key and the expiry are computed, [set] raises only what its
    unguarded [rollback] raises. *)
Lemma set_returns db now f name params (result : number pyfloat) ttl_hours k :
  _generate_cache_key name params = Ok k →
  is_ok (delta ← timedelta (effective_ttl ttl_hours); datetime_add now delta)
  = true →
  on_rollback f = None →
  (set db now f name params result ttl_hours).1 = Ok ().
Proof.
  intros Hk Hexp Hrb. unfold set, set_handler. rewrite Hk, Hrb.
  fold (effective_ttl ttl_hours).
  destruct (delta ← timedelta (effective_ttl ttl_hours); datetime_add now delta);
    [|done].
  by repeat case_match.
Qed.

Lemma set_returns_default db now f name params (result : number pyfloat) k :
  _generate_cache_key name params = Ok k →
  is_datetime (now + timedelta_hours 24) →
  on_rollback f = None →
  (set db now f name params result None).1 = Ok ().
Proof.
  intros Hk Hexp Hrb. apply (set_returns _ _ _ _ _ _ None k); [done| |done].
  change (effective_ttl None) with 24. by rewrite expiry_default_ok.
Qed.


End dispatcher_laws.

(** ** Closed instances *)

Lemma get_returns_unexpired_rows_witness :
  (get db_unexpired 100 no_faults "fibonacci" [("n", 10)]).1
  = Ok (Some (PyInt 55)).
Proof.
  destruct (get_returns_unexpired_rows db_unexpired 100 "fibonacci"
              [("n", 10)] (cache_key_of "fibonacci" [("n", 10)]))
    as (_ & Hint & _).
  - vm_compute. reflexivity.
  - apply (Hint (mkCacheEntry "fibonacci" (dict_text [("n", 10)]) "55" 0
                   (Some 200) 0) 55).
    + vm_compute. reflexivity.
    + reflexivity.
    + vm_compute. reflexivity.
Defined.

(** C2 as stated fails on a row whose [expires_at] is NULL: the row
    exists under the key and holds the result 55, and [get] returns
    nothing. *)
Lemma get_null_expiry_misses :
  (∃ k e, _generate_cache_key "fibonacci" [("n", 10)] = Ok k
          ∧ db_null_expiry !! k = Some e
          ∧ expires_at e = None
          ∧ json_loads (result_json e) = Some (PyInt 55))
  ∧ (get db_null_expiry 100 no_faults "fibonacci" [("n", 10)]).1 = Ok None.
Proof.
  split; [|vm_compute; reflexivity].
  exists (cache_key_of "fibonacci" [("n", 10)]),
    (mkCacheEntry "fibonacci" (dict_text [("n", 10)]) "55" 0 None 0).
  split; [vm_compute; reflexivity|]. split; [vm_compute; reflexivity|].
  split; [reflexivity|]. vm_compute. reflexivity.
Qed.

Lemma hit_count_monotone_witness :
  ∃ e', cache_run db_unexpired
          [CacheGet 100 no_faults "fibonacci" [("n", 10)];
           CacheSet 150 no_faults "fibonacci" [("n", 10)] (PyInt 55) None;
           CacheGet 170 (mkFaults None (Some (SQLAlchemyError "locked")) None)
             "fibonacci" [("n", 10)]]
          !! cache_key_of "fibonacci" [("n", 10)] = Some e'
        ∧ 0 ≤ hit_count e'.
Proof.
  destruct hit_count_monotone as (_ & Hkeep & _).
  destruct (Hkeep
    [CacheGet 100 no_faults "fibonacci" [("n", 10)];
     CacheSet 150 no_faults "fibonacci" [("n", 10)] (PyInt 55) None;
     CacheGet 170 (mkFaults None (Some (SQLAlchemyError "locked")) None)
       "fibonacci" [("n", 10)]]
    db_unexpired (cache_key_of "fibonacci" [("n", 10)])
    (mkCacheEntry "fibonacci" (dict_text [("n", 10)]) "55" 0 (Some 200) 0))
    as (e' & He' & Hle); [vm_compute; reflexivity|].
  exists e'. split; [exact He'|exact Hle].
Defined.




Lemma unknown_operation_raises_witness :
  execute_operation MathService_init first_dispatch.2 (env_at 5) "sqrt"
    [("x", 4)] true
  = (Raise (ValueError "Unsupported operation: sqrt"), MathService_init,
     first_dispatch.2).
Proof.
  apply (unknown_operation_raises MathService_init first_dispatch.2 (env_at 5)
           "sqrt" [("x", 4)] true).
  reflexivity.
Defined.

(** C7, where the code departs from it: [commit] raises inside [set], the
    handler calls [rollback], which raises too, and the dispatch raises
    "Operation failed: ..." although the operation had returned 55. With
    a [rollback] that completes, the same failures are swallowed. *)
Lemma dispatch_fails_when_rollback_raises :
  (call_execute FibonacciOperation MathService_init [("n", 10)]).1
  = Ok (PyInt 55)
  ∧ (execute_operation MathService_init ∅ env_rollback_fails "fibonacci"
       [("n", 10)] true).1.1
    = Raise (ValueError "Operation failed: connection closed")
  ∧ (execute_operation MathService_init ∅ env_store_down "fibonacci"
       [("n", 10)] true).1.1
    = Ok (PyInt 55, 2000, false).
Proof. repeat split; vm_compute; reflexivity. Qed.


Lemma is_datetime_day : is_datetime (0 + timedelta_hours 24).
Proof. unfold is_datetime, datetime_max, timedelta_hours. lia. Qed.


(** * Properties of the rest of the service *)

(** ** The cache store: expiry, frame and rows *)

Section cache_store_further.

Context {pyfloat : Type} `{!FloatOps pyfloat}.

(** What the two lines before the [try] of [set] raise is an
    [OverflowError], and they raise when the expiry is no [datetime]. *)
Lemma expiry_raises now hours e :
  (delta ← timedelta hours; datetime_add now delta) = Raise e →
  ∃ msg, e = OverflowError msg.
Proof.
  unfold timedelta, datetime_add.
  repeat case_match; simpl; repeat case_match; intros; simplify_eq;
    by eexists.
Qed.

Lemma expiry_out_of_range now hours :
  ¬ is_datetime (now + timedelta_hours hours) →
  ∃ msg, (delta ← timedelta hours; datetime_add now delta)
         = Raise (OverflowError msg).
Proof.
  intros Hout.
  destruct (delta ← timedelta hours; datetime_add now delta) as [t|e] eqn:Hexp.
  - apply expiry_inv in Hexp as [-> Hdt]. by destruct Hout.
  - destruct (expiry_raises _ _ _ Hexp) as [msg ->]. by exists msg.
Qed.

(** X2: for parameters that have a cache key, a result that survives
    JSON, and a working session: when the expiry is an instant that
    [datetime] can hold, a result stored by [set] is returned by [get]
    until the row expires, and not from then on; otherwise [set] raises
    [OverflowError] before its [try] and stores nothing. The row expires
    [ttl_hours] hours after [set] read the clock; when [ttl_hours] is
    missing or 0, 24 hours after. *)
Theorem set_then_get db now now' name params (r : number pyfloat) ttl_hours
    k text :
  _generate_cache_key name params = Ok k →
  json_dumps r = Ok text →
  json_loads text = Some r →
  is_datetime now →
  (is_datetime (now + timedelta_hours (effective_ttl ttl_hours)) →
   (now' < now + timedelta_hours (effective_ttl ttl_hours) →
    (get (set db now no_faults name params r ttl_hours).2 now' no_faults
       name params).1 = Ok (Some r))
   ∧ (now + timedelta_hours (effective_ttl ttl_hours) ≤ now' →
      (get (set db now no_faults name params r ttl_hours).2 now' no_faults
         name params).1 = Ok None))
  ∧ (¬ is_datetime (now + timedelta_hours (effective_ttl ttl_hours)) →
     ∃ msg, set db now no_faults name params r ttl_hours
            = (Raise (OverflowError msg), db))
  ∧ effective_ttl None = 24 ∧ effective_ttl (Some 0) = 24.
Proof.
  intros Hk Hdumps Hround Hnow.
  split; [|split; [|done]].
  - intros Hexp.
    rewrite (set_stores _ _ _ _ _ _ k text) by (done || by apply expiry_ok).
    simpl. split.
    + intros Hlt. rewrite (get_live _ _ _ _ k (written_entry (db !! k) now name
                             (dict_text params) text
                             (now + timedelta_hours (effective_ttl ttl_hours)))).
      * simpl. by destruct (db !! k); simpl; rewrite Hround.
      * done.
      * by rewrite lookup_insert_eq.
      * unfold expires_after. destruct (db !! k); simpl; by apply Z.ltb_lt.
    + intros Hge. rewrite (get_not_selected _ _ _ _ _ k); [done..|].
      intros e'. rewrite lookup_insert_eq. intros ?; simplify_eq.
      unfold expires_after. destruct (db !! k); simpl; by apply Z.ltb_ge.
  - intros Hout.
    destruct (expiry_out_of_range now (effective_ttl ttl_hours) Hout)
      as [msg Hexp].
    exists msg. by apply (set_expiry_raises _ _ _ _ _ _ _ k).
Qed.

(** The five ways a dispatch ends. *)
Lemma execute_operation_cases svc db w name params use_cache :
  (operations svc !! name = None
   ∧ execute_operation svc db w name params use_cache
     = (Raise (ValueError ("Unsupported operation: " +:+ name)), svc, db))
  ∨ (∃ e, use_cache = true
       ∧ _generate_cache_key name params = Raise e
       ∧ execute_operation svc db w name params use_cache = (Raise e, svc, db))
  ∨ (∃ cached, use_cache = true
       ∧ (after_get db w name params use_cache).1 = Ok (Some cached)
       ∧ execute_operation svc db w name params use_cache
         = (Ok (cached, 0, true), svc, (after_get db w name params use_cache).2))
  ∨ (∃ operation e svc',
       operations svc !! name = Some operation
       ∧ (after_get db w name params use_cache).1 = Ok None
       ∧ call_execute operation svc params = (Raise e, svc')
       ∧ execute_operation svc db w name params use_cache
         = (Raise (ValueError ("Operation failed: " +:+ exn_str e)), svc',
            (after_get db w name params use_cache).2))
  ∨ (∃ operation r svc',
       operations svc !! name = Some operation
       ∧ (after_get db w name params use_cache).1 = Ok None
       ∧ call_execute operation svc params = (Ok r, svc')
       ∧ execute_operation svc db w name params use_cache
         = (match (after_set (after_get db w name params use_cache).2 w name
                     params r use_cache).1 with
            | Ok _ => Ok (r, (perf_end w - perf_start w) * 1000, false)
            | Raise e => Raise (ValueError ("Operation failed: " +:+ exn_str e))
            end, svc',
            (after_set (after_get db w name params use_cache).2 w name params
               r use_cache).2)).
Proof.
  unfold execute_operation, after_get, after_set.
  destruct (operations svc !! name) as [operation|] eqn:Hop; [|by left].
  right.
  destruct use_cache.
  - destruct (get db (utcnow_get w) (faults_get w) name params)
      as [[[cached|]|e] dbg] eqn:Hget.
    + right. left. by exists cached.
    + do 2 right. simpl.
      destruct (call_execute operation svc params) as [[r|e] svc'] eqn:Hcall.
      * right. exists operation, r, svc'. do 3 (split; [done|]).
        by destruct (set dbg (utcnow_set w) (faults_set w) name params r None)
          as [[[]|e] db'].
      * left. by exists operation, e, svc'.
    + left. exists e. split; [done|].
      revert Hget. unfold get.
      destruct (_generate_cache_key name params) as [k|e'];
        [by repeat case_match|].
      by intros [= -> ->].
  - do 2 right. simpl.
    destruct (call_execute operation svc params) as [[r|e] svc'] eqn:Hcall.
    + right. by exists operation, r, svc'.
    + left. by exists operation, e, svc'.
Qed.

Lemma get_frame db now f name params k :
  _generate_cache_key name params ≠ Ok k →
  (get db now f name params).2 !! k = db !! k.
Proof.
  intros Hk.
  destruct (get_cases db now f name params)
    as [[e ->]|[->|(k' & e & Hk' & _ & _ & ->)]]; [done..|].
  simpl. rewrite lookup_insert_ne; [done|]. intros ->. by destruct Hk.
Qed.

Lemma set_frame db now f name params (r : number pyfloat) ttl_hours k :
  _generate_cache_key name params ≠ Ok k →
  (set db now f name params r ttl_hours).2 !! k = db !! k.
Proof.
  intros Hk.
  destruct (set_cases db now f name params r ttl_hours)
    as [->|(k' & ptext & rtext & t & Hk' & _ & _ & _ & _ & ->)]; [done|].
  simpl. rewrite lookup_insert_ne; [done|]. intros ->. by destruct Hk.
Qed.

Lemma after_get_frame db w name params use_cache k :
  _generate_cache_key name params ≠ Ok k →
  (after_get db w name params use_cache).2 !! k = db !! k.
Proof.
  intros Hk. unfold after_get. destruct use_cache; [|done].
  by apply get_frame.
Qed.

Lemma after_set_frame dbg w name params r use_cache k :
  _generate_cache_key name params ≠ Ok k →
  (after_set dbg w name params r use_cache).2 !! k = dbg !! k.
Proof.
  intros Hk. unfold after_set. destruct use_cache; [|done].
  by apply set_frame.
Qed.

(** X3: a call of [get] or [set], and so a whole dispatch, changes at most
    the row at the key of its own arguments, whatever the session does
    (and no row at all when its arguments have no key). *)
Theorem cache_calls_frame db now f name params (r : number pyfloat) ttl_hours
    svc w use_cache k :
  _generate_cache_key name params ≠ Ok k →
  (get db now f name params).2 !! k = db !! k
  ∧ (set db now f name params r ttl_hours).2 !! k = db !! k
  ∧ (execute_operation svc db w name params use_cache).2 !! k = db !! k.
Proof.
  intros Hk. split; [by apply get_frame|]. split; [by apply set_frame|].
  destruct (execute_operation_cases svc db w name params use_cache)
    as [[_ ->]|[(e & _ & _ & ->)|[(c & _ & _ & ->)
       |[(op & e & svc' & _ & _ & _ & ->)
       |(op & r' & svc' & _ & _ & _ & ->)]]]]; simpl.
  - done.
  - done.
  - by apply after_get_frame.
  - by apply after_get_frame.
  - rewrite after_set_frame by done. by apply after_get_frame.
Qed.

(** X4: with caching disabled a dispatch neither reads nor writes the
    table: the table is returned as it was, and a result is always the
    value the operation computed, with [cache_hit = false] and the measured
    time. *)
Theorem uncached_dispatch svc db w name params :
  (execute_operation svc db w name params false).2 = db
  ∧ ∀ r t hit,
      (execute_operation svc db w name params false).1.1 = Ok (r, t, hit) →
      hit = false ∧ t = (perf_end w - perf_start w) * 1000
      ∧ ∃ operation, operations svc !! name = Some operation
                     ∧ (call_execute operation svc params).1 = Ok r.
Proof.
  destruct (execute_operation_cases svc db w name params false)
    as [[_ ->]|[(e & ? & _)|[(c & ? & _)|[(op & e & svc' & _ & _ & _ & ->)
       |(op & r' & svc' & Hop & _ & Hcall & ->)]]]]; simpl; try done.
  split; [done|]. intros r t hit [= <- <- <-]. do 2 (split; [done|]).
  exists op. by rewrite Hcall.
Qed.




Lemma hex_digit_lower n : is_lower_hex (json.hex_digit n) = true.
Proof. unfold json.hex_digit. by repeat case_match. Qed.

Lemma hex_all_lower n : ∀ x acc,
  all_chars is_lower_hex acc = true →
  all_chars is_lower_hex (sha256.hex n x acc) = true.
Proof.
  induction n as [|n IH]; intros x acc Hacc; [done|]. simpl.
  apply IH. simpl. by rewrite hex_digit_lower.
Qed.

Lemma fits_all_Forall (d : dict) :
  fits_all d = true ↔ Forall (λ kv, Z.abs kv.2 < 10 ^ 4300) d.
Proof.
  unfold fits_all. rewrite forallb_forall, Forall_forall.
  split; intros H kv Hkv.
  - apply Z.ltb_lt. apply (H kv). by apply list_elem_of_In.
  - apply Z.ltb_lt. apply (H kv). by apply list_elem_of_In.
Qed.

(** X6: [_generate_cache_key] returns a key exactly for the dicts whose
    values all have at most 4300 digits, and the key is then 64 lowercase
    hexadecimal digits; on every other dict it raises the [ValueError] of
    [json.dumps], whatever the operation name. *)
Theorem generate_cache_key_domain name (params : dict) :
  (Forall (λ kv, Z.abs kv.2 < 10 ^ 4300) params →
   ∃ k, _generate_cache_key name params = Ok k
        ∧ String.length k = 64%nat ∧ all_chars is_lower_hex k = true)
  ∧ (Exists (λ kv, 10 ^ 4300 ≤ Z.abs kv.2) params →
     _generate_cache_key name params
     = Raise (ValueError "Exceeds the limit (4300 digits) for integer string conversion; use sys.set_int_max_str_digits() to increase the limit")).
Proof.
  rewrite generate_cache_key_spec. split.
  - intros Hfits%fits_all_Forall. rewrite Hfits. eexists. split; [done|].
    unfold cache_key_of, sha256.hexdigest.
    split; [apply hex_length|by apply hex_all_lower].
  - intros Hbig. destruct (fits_all params) eqn:Hfits; [|done].
    apply fits_all_Forall in Hfits. apply Exists_exists in Hbig as (kv & Hin & Hkv).
    rewrite Forall_forall in Hfits. specialize (Hfits kv Hin). lia.
Qed.

Lemma incr_hit_count_wf e : row_wf e → row_wf (incr_hit_count e).
Proof. intros (Hexp & Hhit & Hres). repeat split; simpl; [done|lia|done]. Qed.

Lemma get_wf db now f name params :
  table_wf db → table_wf (get db now f name params).2.
Proof.
  intros Hwf.
  destruct (get_cases db now f name params)
    as [[e ->]|[->|(k' & e & _ & He & _ & ->)]]; [done..|].
  simpl. intros k e' Hk.
  destruct (decide (k = k')) as [->|Hne].
  - rewrite lookup_insert_eq in Hk. simplify_eq.
    by eapply incr_hit_count_wf, Hwf.
  - rewrite lookup_insert_ne in Hk by done. by eapply Hwf.
Qed.

Lemma set_wf db now f name params (r : number pyfloat) ttl_hours :
  table_wf db → table_wf (set db now f name params r ttl_hours).2.
Proof.
  intros Hwf.
  destruct (set_cases db now f name params r ttl_hours)
    as [->|(k' & ptext & rtext & t & _ & _ & Hr & _ & _ & ->)]; [done|].
  simpl. intros k e' Hk.
  destruct (decide (k = k')) as [->|Hne].
  - rewrite lookup_insert_eq in Hk. simplify_eq.
    destruct (db !! k') as [e0|] eqn:He0; simpl.
    + destruct (Hwf _ _ He0) as (_ & ? & _).
      split; [by eexists|]. split; [done|]. by exists r.
    + split; [by eexists|]. split; [done|]. by exists r.
  - rewrite lookup_insert_ne in Hk by done. by eapply Hwf.
Qed.

(** X7: the rows of a table that only the service has written, starting
    from the empty table, always have an expiry, a hit count that is not
    negative, and the JSON text of a number as result: every call of [get]
    and [set], and every dispatch, keeps this, whatever the session
    does. *)
Theorem table_wf_invariant :
  table_wf (pyfloat:=pyfloat) ∅
  ∧ (∀ db (op : cache_op), table_wf db → table_wf (cache_step db op))
  ∧ (∀ db (ops : list cache_op), table_wf db → table_wf (cache_run db ops))
  ∧ (∀ svc db w name params use_cache,
       table_wf db →
       table_wf (execute_operation svc db w name params use_cache).2).
Proof.
  assert (Hstep : ∀ db (op : cache_op), table_wf db → table_wf (cache_step db op)).
  { intros db [now f name params|now f name params r ttl] Hwf; simpl;
      [by apply get_wf|by apply set_wf]. }
  split; [intros k e Hk; by rewrite lookup_empty in Hk|].
  split; [done|]. split.
  - intros db ops. revert db.
    induction ops as [|op ops IH]; intros db Hwf; [done|].
    simpl. apply IH, Hstep, Hwf.
  - intros svc db w name params use_cache Hwf.
    assert (Hg : table_wf (after_get db w name params use_cache).2).
    { unfold after_get. destruct use_cache; [by apply get_wf|done]. }
    destruct (execute_operation_cases svc db w name params use_cache)
      as [[_ ->]|[(e & _ & _ & ->)|[(c & _ & _ & ->)
         |[(op & e' & svc' & _ & _ & _ & ->)
         |(op & r' & svc' & _ & _ & _ & ->)]]]]; simpl; try done.
    unfold after_set. destruct use_cache; [by apply set_wf|done].
Qed.

(** A call of the Fibonacci operation keeps its memo table reachable. *)
Lemma fibonacci_execute_memo_ok m n :
  memo_ok m → memo_ok (FibonacciOperation.execute m n).2.
Proof.
  intros Hm. destruct (decide (0 ≤ n)) as [Hn|Hn].
  - destruct (fibonacci_memo_nonneg m n Hm Hn) as (m' & Hrun & Hm').
    unfold FibonacciOperation.execute. by rewrite Hrun.
  - unfold FibonacciOperation.execute.
    by rewrite (fibonacci_memo_negative m n Hm) by lia.
Qed.

Lemma call_execute_memo_ok operation svc params :
  memo_ok (fib_memo svc) →
  memo_ok (fib_memo (call_execute (pyfloat:=pyfloat) operation svc params).2).
Proof.
  intros Hm. unfold call_execute. destruct operation; simpl; try done.
  destruct (bind_kwargs "FibonacciOperation.execute" ["n"] params) as [frame|e];
    [|done].
  pose proof (fibonacci_execute_memo_ok (fib_memo svc) (frame !!! "n") Hm)
    as Hm'.
  by destruct (FibonacciOperation.execute (fib_memo svc) (frame !!! "n"))
    as [r memo].
Qed.

(** X8: a dispatch never changes the registry, and it leaves the memo
    table of the Fibonacci operation holding Fibonacci numbers at the
    positions [0..k] and nothing else, whatever the operation, the
    parameters and the outcome. *)
Theorem dispatch_keeps_service svc db w name params use_cache :
  memo_ok (fib_memo svc) →
  operations (execute_operation svc db w name params use_cache).1.2
  = operations svc
  ∧ memo_ok (fib_memo (execute_operation svc db w name params use_cache).1.2).
Proof.
  intros Hm.
  destruct (execute_operation_cases svc db w name params use_cache)
    as [[_ ->]|[(e & _ & _ & ->)|[(c & _ & _ & ->)
       |[(op & e' & svc' & _ & _ & Hcall & ->)
       |(op & r' & svc' & _ & _ & Hcall & ->)]]]]; simpl; try done.
  - split; [by eapply call_execute_operations|].
    pose proof (call_execute_memo_ok op svc params Hm) as Hm'.
    by rewrite Hcall in Hm'.
  - split; [by eapply call_execute_operations|].
    pose proof (call_execute_memo_ok op svc params Hm) as Hm'.
    by rewrite Hcall in Hm'.
Qed.

End cache_store_further.

(** ** The operations and their validators *)

(** A call on [n >= 0] extends the memo table to cover [0..max k n]. *)
Lemma fibonacci_memo_upto k m n :
  memo_upto k m → 0 ≤ n →
  ∃ m', FibonacciOperation._fibonacci_memo m n = (Ok (fib n), m')
        ∧ memo_upto (Z.max k n) m'.
Proof.
  intros Hm Hn. unfold FibonacciOperation._fibonacci_memo.
  destruct (decide (n ≤ k)) as [Hle|Hgt].
  - rewrite (memo_upto_lookup k m n) by (done || lia).
    exists m. split; [done|]. by rewrite Z.max_l by lia.
  - rewrite (memo_upto_lookup_None k m n) by (done || lia).
    pose proof Hm as [Hk _].
    destruct (Z.ltb_spec n 2); [lia|].
    destruct (fibonacci_loop_spec (Z.to_nat (n - 1)) 1 k m Hm) as (m' & Hloop & Hm');
      [lia|].
    unfold range. replace (n + 1 - 2) with (Z.of_nat (Z.to_nat (n - 1))) by lia.
    change 2 with (1 + 1) at 1. change (fib (1 - 1)) with 0 in Hloop.
    change (fib 1) with 1 in Hloop. rewrite Hloop. simpl.
    unfold FibonacciOperation.getitem.
    rewrite (memo_upto_lookup _ m' n Hm') by lia.
    exists m'. split; [done|].
    by replace (Z.max k n) with (Z.max k (1 + Z.of_nat (Z.to_nat (n - 1)))) by lia.
Qed.

Lemma memo_upto_mono k k' m m' :
  memo_upto k m → memo_upto k' m' → k ≤ k' → m ⊆ m'.
Proof.
  intros Hm Hm' Hle. apply map_subseteq_spec. intros i v Hi.
  destruct (decide (0 ≤ i ≤ k)) as [Hik|Hik].
  - rewrite (memo_upto_lookup k m i Hm Hik) in Hi. simplify_eq.
    apply (memo_upto_lookup k' m' i Hm'). lia.
  - by rewrite (memo_upto_lookup_None k m i Hm Hik) in Hi.
Qed.

(** X9: the memo table of the Fibonacci operation only grows: a call, on
    any [n], keeps every entry the table had; after a call on [n >= 0] the
    table holds the [n]th Fibonacci number at [n], so the same call again
    returns the same value and leaves the table as it is. *)
Theorem fibonacci_memo_grows m n :
  memo_ok m →
  m ⊆ (FibonacciOperation.execute m n).2
  ∧ (0 ≤ n →
     (FibonacciOperation.execute m n).2 !! n = Some (fib n)
     ∧ FibonacciOperation.execute (FibonacciOperation.execute m n).2 n
       = (Ok (fib n), (FibonacciOperation.execute m n).2)).
Proof.
  intros [k Hm]. unfold FibonacciOperation.execute.
  destruct (decide (0 ≤ n)) as [Hn|Hn].
  - destruct (fibonacci_memo_upto k m n Hm Hn) as (m' & -> & Hm'). simpl.
    split; [apply (memo_upto_mono k (Z.max k n) m m'); (done || lia)|].
    intros _.
    assert (Hlook : m' !! n = Some (fib n))
      by (apply (memo_upto_lookup _ m' n Hm'); lia).
    split; [done|]. unfold FibonacciOperation._fibonacci_memo. by rewrite Hlook.
  - rewrite (fibonacci_memo_negative m n) by (by exists k || lia).
    split; [done|lia].
Qed.

(** X10: the factorial operation returns a value exactly on the integers
    up to 166, negative ones included, and the value it returns is the
    product [1 * 2 * ... * n] (so 1 when [n <= 0]). *)
Theorem factorial_domain n :
  (is_ok (FactorialOperation.execute n) = true ↔ n ≤ 166)
  ∧ (n ≤ 166 → FactorialOperation.execute n = Ok (factorial n)).
Proof.
  assert (Hsmall : n ≤ 166 → FactorialOperation.execute n = Ok (factorial n)).
  { intros Hn. destruct (decide (0 ≤ n)) as [Hn0|Hn0].
    - by apply factorial_small.
    - unfold FactorialOperation.execute, factorial.
      rewrite range_nil, seqZ_nil by lia.
      by destruct ((n =? 0) || (n =? 1)). }
  split; [|done]. split.
  - intros Hok. destruct (decide (n ≤ 166)) as [|Hn]; [done|].
    rewrite factorial_large in Hok by lia. done.
  - intros Hn. by rewrite Hsmall.
Qed.

(** X11: the Fibonacci validator accepts exactly the integers 0..1000
    and returns them unchanged; on every accepted [n], whatever calls came
    before, the operation returns the [n]th Fibonacci number, and a memo
    table that covers no position above 1000 still covers none. *)
Theorem validated_fibonacci v :
  (is_ok (schemas.validate_fibonacci_input v) = true ↔ 0 ≤ v ≤ 1000)
  ∧ ∀ n k m,
      schemas.validate_fibonacci_input v = Ok n →
      memo_upto k m → k ≤ 1000 →
      n = v
      ∧ ∃ m' k', FibonacciOperation.execute m n = (Ok (fib n), m')
                 ∧ memo_upto k' m' ∧ k' ≤ 1000.
Proof.
  unfold schemas.validate_fibonacci_input.
  destruct (Z.ltb_spec v 0), (Z.ltb_spec 1000 v); simpl; try (split; [split; (done || lia)|done]).
  split; [split; (done || lia)|].
  intros n k m [= <-] Hm Hk. split; [done|].
  destruct (fibonacci_memo_upto k m v Hm) as (m' & Hrun & Hm'); [lia|].
  exists m', (Z.max k v). split; [done|]. split; [done|lia].
Qed.

(** X12: the factorial validator accepts exactly the integers 0..170
    and returns them unchanged; on the accepted inputs up to 166 the
    operation returns [n!], and on the accepted inputs 167..170 it raises
    "Factorial result too large". *)
Theorem validated_factorial v :
  (is_ok (schemas.validate_factorial_input v) = true ↔ 0 ≤ v ≤ 170)
  ∧ ∀ n,
      schemas.validate_factorial_input v = Ok n →
      n = v
      ∧ (n ≤ 166 → FactorialOperation.execute n = Ok (factorial n))
      ∧ (167 ≤ n →
         FactorialOperation.execute n = Raise FactorialOperation.too_large).
Proof.
  unfold schemas.validate_factorial_input.
  destruct (Z.ltb_spec v 0), (Z.ltb_spec 170 v); simpl; try (split; [split; (done || lia)|done]).
  split; [split; (done || lia)|].
  intros n [= <-]. split; [done|]. split.
  - intros Hn. by apply factorial_small.
  - apply factorial_large.
Qed.

(** ** The dispatcher and the order of the parameters *)

Section parameter_order.

Context {pyfloat : Type} `{!FloatOps pyfloat}.

(** A call that binds its keyword arguments binds the same values from
    the same items in another order. *)
Lemma bind_kwargs_perm qualname names (d1 d2 : dict) :
  NoDup d1.*1 → d1 ≡ₚ d2 →
  is_ok (bind_kwargs qualname names d1) = true →
  bind_kwargs qualname names d2 = bind_kwargs qualname names d1.
Proof.
  intros Hnd Hperm. unfold bind_kwargs.
  assert (Hf : filter (λ kv : string * Z, kv.1 ∉ names) d1
               ≡ₚ filter (λ kv : string * Z, kv.1 ∉ names) d2)
    by (by rewrite Hperm).
  destruct (filter _ d1) as [|kv l]; [|by destruct (decide (kv.1 = "self"))].
  apply Permutation_nil_l in Hf. rewrite <- Hf.
  rewrite (list_filter_iff (λ name, name ∉ d2.*1) (λ name, name ∉ d1.*1))
    by (intros name; by rewrite Hperm).
  destruct (filter (λ name, name ∉ d1.*1) names); [|done].
  intros _. by rewrite (list_to_map_proper d1 d2).
Qed.

Lemma call_execute_perm operation svc (d1 d2 : dict) r :
  NoDup d1.*1 → d1 ≡ₚ d2 →
  (call_execute (pyfloat:=pyfloat) operation svc d1).1 = Ok r →
  call_execute operation svc d2 = call_execute operation svc d1.
Proof.
  intros Hnd Hperm. unfold call_execute. destruct operation.
  - destruct (bind_kwargs "PowerOperation.execute" _ d1) as [frame|e] eqn:Hb;
      [|done].
    by rewrite (bind_kwargs_perm _ _ d1 d2), Hb by (done || by rewrite Hb).
  - destruct (bind_kwargs "FibonacciOperation.execute" _ d1) as [frame|e] eqn:Hb;
      [|done].
    by rewrite (bind_kwargs_perm _ _ d1 d2), Hb by (done || by rewrite Hb).
  - destruct (bind_kwargs "FactorialOperation.execute" _ d1) as [frame|e] eqn:Hb;
      [|done].
    by rewrite (bind_kwargs_perm _ _ d1 d2), Hb by (done || by rewrite Hb).
Qed.

(** [get] reads its arguments through the key only, and the outcome of
    [set] is decided by the session once the key and the expiry are
    computed. *)
Lemma get_key db now f name1 name2 (d1 d2 : dict) :
  _generate_cache_key name1 d1 = _generate_cache_key name2 d2 →
  get (pyfloat:=pyfloat) db now f name1 d1 = get db now f name2 d2.
Proof. intros Hk. unfold get. by rewrite Hk. Qed.

Lemma set_outcome db now f name (d1 d2 : dict) (r : number pyfloat) ttl :
  _generate_cache_key name d1 = _generate_cache_key name d2 →
  fits_all d1 = fits_all d2 →
  (set db now f name d1 r ttl).1 = (set db now f name d2 r ttl).1.
Proof.
  intros Hk Hfits. unfold set, set_handler. rewrite Hk.
  destruct (_generate_cache_key name d2) as [k|e]; [|done].
  destruct (delta ← timedelta _; datetime_add now delta) as [t|e]; [|done].
  destruct (on_select f); [done|].
  unfold set_entry. rewrite !dumps_spec, Hfits.
  destruct (db !! k), (fits_all d2), (json_dumps r); simpl;
    by destruct (on_commit f), (on_rollback f).
Qed.

(** X13: a dispatch that returns a value returns the same value, the same
    time, the same [cache_hit] flag and the same service when the items of
    the parameter dict come in another order: the operation binds them by
    name and the cache key sorts them. The names of a dict are distinct. *)
Theorem dispatch_parameter_order svc db w name (d1 d2 : dict) use_cache x :
  NoDup d1.*1 → d1 ≡ₚ d2 →
  (execute_operation svc db w name d1 use_cache).1.1 = Ok x →
  (execute_operation svc db w name d2 use_cache).1
  = (execute_operation svc db w name d1 use_cache).1.
Proof.
  intros Hnd Hperm. unfold execute_operation.
  destruct (operations svc !! name) as [op|]; [|done].
  assert (Hkey : _generate_cache_key name d1 = _generate_cache_key name d2)
    by (by apply generate_cache_key_reorder).
  assert (Hget : (if use_cache
                  then get db (utcnow_get w) (faults_get w) name d2
                  else (Ok None, db))
                 = (if use_cache
                    then get db (utcnow_get w) (faults_get w) name d1
                    else (Ok None, db))).
  { destruct use_cache; [|done]. by apply get_key. }
  rewrite Hget.
  destruct (if use_cache then get _ _ _ _ d1 else _) as [[[c|]|e] dbg];
    [done| |done].
  destruct (call_execute op svc d1) as [[r|e] svc'] eqn:Hcall; [|done].
  rewrite (call_execute_perm op svc d1 d2 r Hnd Hperm), Hcall
    by (by rewrite Hcall).
  destruct use_cache; [|done].
  pose proof (set_outcome dbg (utcnow_set w) (faults_set w) name d2 d1 r None
                (eq_sym Hkey) (eq_sym (fits_all_Permutation _ _ Hperm))) as Hs.
  destruct (set dbg _ _ name d2 r None) as [s2 db2].
  destruct (set dbg _ _ name d1 r None) as [s1 db1].
  simpl in Hs. subst s2. by destruct s1.
Qed.

End parameter_order.

(** ** The controller *)

Lemma isspace_not_comma c : isspace c = true → not_comma c = true.
Proof.
  unfold not_comma. destruct (Ascii.eqb_spec c ","); [|done].
  subst c. intros H. vm_compute in H. discriminate H.
Qed.

Lemma all_space_not_comma s :
  all_chars isspace s = true → all_chars not_comma s = true.
Proof.
  induction s as [|c s IH]; [done|]. simpl.
  intros [Hc Hs]%andb_true_iff. by rewrite (isspace_not_comma c), IH.
Qed.

Lemma all_chars_app p (s t : string) :
  all_chars p (s +:+ t) = all_chars p s && all_chars p t.
Proof.
  induction s as [|c s IH]; [done|].
  rewrite string_app_cons. simpl. by rewrite IH, andb_assoc.
Qed.

Lemma before_comma_app (s tail : string) :
  all_chars not_comma s = true →
  before_comma (s +:+ tail) = s +:+ before_comma tail.
Proof.
  induction s as [|c s IH]; [done|].
  rewrite !string_app_cons. simpl. unfold not_comma at 1.
  intros [Hc Hs]%andb_true_iff.
  destruct (Ascii.eqb c ","); [done|]. by rewrite IH.
Qed.

Lemma before_comma_more tail : more_elements tail = true → before_comma tail = "".
Proof. destruct tail as [|c tail]; [done|]. simpl. by intros ->. Qed.

Lemma string_app_nil_r (s : string) : s +:+ "" = s.
Proof.
  induction s as [|c s IH]; [done|]. by rewrite string_app_cons, IH.
Qed.

Lemma lstrip_app (pad s : string) :
  all_chars isspace pad = true → lstrip (pad +:+ s) = lstrip s.
Proof.
  induction pad as [|c pad IH]; [done|].
  rewrite string_app_cons. simpl.
  intros [Hc Hs]%andb_true_iff. rewrite Hc. by apply IH.
Qed.

Lemma rstrip_all_space (pad : string) :
  all_chars isspace pad = true → rstrip pad = "".
Proof.
  induction pad as [|c pad IH]; [done|]. simpl.
  intros [Hc Hs]%andb_true_iff. by rewrite IH, Hc.
Qed.

Lemma rstrip_app (s pad : string) :
  all_chars isspace pad = true → rstrip (s +:+ pad) = rstrip s.
Proof.
  intros Hpad. induction s as [|c s IH].
  - rewrite string_app_nil_l. by apply rstrip_all_space.
  - rewrite string_app_cons. simpl. by rewrite IH.
Qed.

Lemma rstrip_last (s : string) c :
  last_char s = Some c → isspace c = false → rstrip s = s.
Proof.
  induction s as [|a s IH]; [done|]. simpl.
  destruct (last_char s) as [c'|] eqn:Hlast.
  - intros [= ->] Hc. rewrite IH by done.
    destruct s; [done|reflexivity].
  - intros [= ->] Hc. destruct s as [|b s]; [by simpl; rewrite Hc|].
    simpl in Hlast. by destruct (last_char s).
Qed.

(** X14: the client address the service records is the first element of
    the [X-Forwarded-For] header without the whitespace around it: for a
    header that is an address [ip], padded with whitespace on both sides
    and followed by nothing or by a comma and anything, [get_client_ip]
    returns [ip], whatever the address of the peer. *)
Theorem get_client_ip_forwarded request (pad1 ip pad2 tail : string) :
  x_forwarded_for request = Some (pad1 +:+ ip +:+ pad2 +:+ tail) →
  all_chars isspace pad1 = true → all_chars isspace pad2 = true →
  all_chars not_comma ip = true → unpadded ip = true →
  more_elements tail = true →
  get_client_ip request = ip.
Proof.
  intros Hhdr Hp1 Hp2 Hip Hun Htail. unfold get_client_ip. rewrite Hhdr.
  unfold unpadded in Hun.
  destruct ip as [|a ip']; [done|]. simpl in Hun.
  set (ip := String a ip') in *.
  assert (Hlast : ∃ b, last_char ip = Some b ∧ isspace b = false).
  { unfold ip. simpl. destruct (last_char ip') as [b|]; eexists;
      (split; [reflexivity|]);
      apply andb_true_iff in Hun as [H1 H2]; by apply negb_true_iff. }
  destruct Hlast as (b & Hb & Hbs).
  assert (Ha : isspace a = false).
  { destruct (last_char ip'); apply andb_true_iff in Hun as [H1 H2];
      by apply negb_true_iff. }
  assert (Hstrip : strip (before_comma (pad1 +:+ ip +:+ pad2 +:+ tail)) = ip).
  { rewrite <- !string_app_assoc.
    rewrite before_comma_app, before_comma_more, string_app_nil_r.
    - unfold strip. rewrite !string_app_assoc, lstrip_app by done.
      replace (lstrip (ip +:+ pad2)) with (ip +:+ pad2)
        by (unfold ip; rewrite string_app_cons; simpl; by rewrite Ha).
      rewrite rstrip_app by done. by eapply rstrip_last.
    - done.
    - rewrite !all_chars_app, Hip.
      by rewrite (all_space_not_comma pad1), (all_space_not_comma pad2). }
  destruct (pad1 +:+ ip +:+ pad2 +:+ tail) as [|c rest] eqn:Hs; [|done].
  exfalso. destruct pad1; [|done]. done.
Qed.

Section controller_properties.

Context {pyfloat : Type} `{!FloatOps pyfloat}.

(** [json.dumps] on a number raises only the [ValueError] of the digit
    limit. *)
Lemma json_dumps_raises (r : number pyfloat) e :
  json_dumps r = Raise e → e = json.digit_limit.
Proof.
  destruct r as [z|x]; simpl; [|done]. rewrite dumps_int_spec.
  destruct (json.fits z); by intros [=].
Qed.

(** With a working session, and JSON texts for the parameters and the
    result, the record is appended and returned. *)
Lemma log_working requests now request operation parameters
    (result : option (number pyfloat)) t success error ptext rtext :
  json.dumps parameters = Ok ptext →
  match result with
  | Some result => Some <$> json_dumps result
  | None => Ok None
  end = Ok rtext →
  log_and_persist_request requests now no_faults request operation parameters
    result t success error
  = (Ok (request_row now request operation ptext rtext t success error),
     requests ++ [request_row now request operation ptext rtext t
                    success error]).
Proof.
  intros Hp Hr. unfold log_and_persist_request. rewrite Hp. simpl.
  by rewrite Hr.
Qed.

(** With a working session, a result that has no JSON text makes the
    call raise what [json.dumps] raised, and nothing is appended. *)
Lemma log_result_raises requests now request operation parameters
    (result : number pyfloat) t success error ptext e :
  json.dumps parameters = Ok ptext →
  json_dumps result = Raise e →
  log_and_persist_request requests now no_faults request operation parameters
    (Some result) t success error
  = (Raise e, requests).
Proof.
  intros Hp Hr. unfold log_and_persist_request. rewrite Hp. simpl.
  by rewrite Hr.
Qed.

(** Every exception a dispatch raises is a [ValueError]. *)
Lemma execute_operation_raises svc db w name params use_cache e :
  (execute_operation (pyfloat:=pyfloat) svc db w name params use_cache).1.1
  = Raise e →
  ∃ msg, e = ValueError msg.
Proof.
  destruct (execute_operation_cases svc db w name params use_cache)
    as [[_ ->]|[(e' & _ & Hkey & ->)|[(c & _ & _ & ->)
       |[(op & e' & svc' & _ & _ & _ & ->)
       |(op & r' & svc' & _ & _ & _ & ->)]]]]; simpl.
  - intros [= <-]. by eexists.
  - intros [= <-]. rewrite generate_cache_key_spec in Hkey.
    destruct (fits_all params); simplify_eq. by eexists.
  - done.
  - intros [= <-]. by eexists.
  - destruct (after_set _ w name params r' use_cache) as [[[]|e''] db'];
      simpl; [done|].
    intros [= <-]. by eexists.
Qed.

(** The [except] clauses keep the service and the cache table. *)
Lemma route_except_state e st request w now f operation parameters :
  app_service (route_except (pyfloat:=pyfloat) e st request w now f operation
                 parameters).2 = app_service st
  ∧ app_cache (route_except (pyfloat:=pyfloat) e st request w now f operation
                 parameters).2 = app_cache st.
Proof.
  unfold route_except.
  destruct (log_and_persist_request _ _ _ _ _ _ _ _ _ _) as [[row|e'] reqs];
    [|done].
  by destruct e.
Qed.

Lemma route_except_status e st request w now f operation parameters code detail :
  (route_except (pyfloat:=pyfloat) e st request w now f operation
     parameters).1 = HTTPException code detail →
  (code = 400 ∧ e = ValueError detail)
  ∨ (code = 500 ∧ detail = "Internal server error"
     ∧ ∀ msg, e ≠ ValueError msg).
Proof.
  unfold route_except.
  destruct (log_and_persist_request _ _ _ _ _ _ _ _ _ _) as [[row|e'] reqs];
    [|done].
  destruct e; simpl; intros [= <- <-]; (by left) || (by right).
Qed.

Lemma route_except_no_response e st request w now f operation parameters
    (body : MathOperationResponse pyfloat) :
  (route_except e st request w now f operation parameters).1 ≠ Response body.
Proof.
  unfold route_except.
  destruct (log_and_persist_request _ _ _ _ _ _ _ _ _ _) as [[row|e'] reqs];
    [|done].
  by destruct e.
Qed.

(** X15: what a route answers agrees with the dispatch it made. The
    service and the cache table are left as the dispatch left them,
    whatever happens while the request is recorded; a response carries
    the result, the time and the [cached] flag of the dispatch; the only
    status codes are 400 and 500; and status 500 is only ever the answer
    to a request whose dispatch had returned a result, which the client
    does not get because recording the request failed. *)
Theorem route_answers_dispatch operation parameters st request w :
  app_service (calculate operation parameters st request w).2
  = (execute_operation (app_service st) (app_cache st) (dispatch_env w)
       operation parameters true).1.2
  ∧ app_cache (calculate operation parameters st request w).2
    = (execute_operation (app_service st) (app_cache st) (dispatch_env w)
         operation parameters true).2
  ∧ (∀ body : MathOperationResponse pyfloat,
       (calculate operation parameters st request w).1 = Response body →
       (execute_operation (app_service st) (app_cache st) (dispatch_env w)
          operation parameters true).1.1
       = Ok (resp_result body, resp_execution_time_ms body, resp_cached body)
       ∧ resp_operation body = operation
       ∧ resp_parameters body = parameters
       ∧ resp_timestamp body = response_now w)
  ∧ (∀ code detail,
       (calculate operation parameters st request w).1
       = HTTPException code detail →
       code = 400
       ∨ (code = 500 ∧ detail = "Internal server error"
          ∧ is_ok (execute_operation (app_service st) (app_cache st)
                     (dispatch_env w) operation parameters true).1.1 = true)).
Proof.
  unfold calculate.
  destruct (execute_operation _ _ _ _ _ _) as [[[[[r t] c]|e] svc] db] eqn:Hd;
    simpl.
  - destruct (log_and_persist_request _ _ _ _ _ _ _ _ _ _)
      as [[row|e] reqs] eqn:Hlog; simpl.
    + do 2 (split; [done|]). split; [by intros body [= <-]|done].
    + match goal with
      | |- context [route_except ?e ?st ?rq ?w ?n ?f ?o ?p] =>
          pose proof (route_except_state e st rq w n f o p) as [Hs Hc];
          pose proof (route_except_status e st rq w n f o p) as Hst;
          pose proof (route_except_no_response e st rq w n f o p) as Hno;
          destruct (route_except e st rq w n f o p) as [out st']
      end.
      simpl in *. do 2 (split; [done|]). split.
      * intros body ->. by destruct (Hno body).
      * intros code detail ->.
        destruct (Hst code detail eq_refl) as [[-> _]|(-> & -> & _)];
          [by left|by right].
  - pose proof (execute_operation_raises (app_service st) (app_cache st)
                  (dispatch_env w) operation parameters true e) as He.
    rewrite Hd in He. destruct (He eq_refl) as [msg ->].
    match goal with
    | |- context [route_except ?e ?st ?rq ?w ?n ?f ?o ?p] =>
        pose proof (route_except_state e st rq w n f o p) as [Hs Hc];
        pose proof (route_except_status e st rq w n f o p) as Hst;
        pose proof (route_except_no_response e st rq w n f o p) as Hno;
        destruct (route_except e st rq w n f o p) as [out st']
    end.
    simpl in *. do 2 (split; [done|]). split.
    + intros body ->. by destruct (Hno body).
    + intros code detail ->.
      destruct (Hst code detail eq_refl) as [[-> _]|(_ & _ & Hne)];
        [by left|by destruct (Hne msg)].
Qed.

(** What a route does when the parameters have a JSON text and the
    session lets the request record be persisted: a result that has no
    JSON text cannot be recorded, the first call of
    [log_and_persist_request] raises the [ValueError] of [json.dumps],
    and the route answers with status 400. *)
Lemma calculate_logged operation parameters st request w ptext :
  json.dumps parameters = Ok ptext →
  log_faults w = no_faults →
  relog_faults w = no_faults →
  calculate operation parameters st request w
  = match execute_operation (app_service st) (app_cache st) (dispatch_env w)
            operation parameters true with
    | (Ok (result, t, cached), svc, db) =>
        match json_dumps result with
        | Ok rtext =>
            (Response (mkResponse operation parameters result t
                         (response_now w) cached),
             mkApp svc db
               (app_requests st
                ++ [request_row (log_now w) request operation ptext
                      (Some rtext) (Some t) true None]))
        | Raise e =>
            (HTTPException 400 (exn_str e),
             mkApp svc db
               (app_requests st
                ++ [request_row (relog_now w) request operation ptext None
                      (Some ((route_perf_except w - route_perf_start w) * 1000))
                      false (Some (exn_str e))]))
        end
    | (Raise e, svc, db) =>
        (HTTPException 400 (exn_str e),
         mkApp svc db
           (app_requests st
            ++ [request_row (log_now w) request operation ptext None
                  (Some ((route_perf_except w - route_perf_start w) * 1000))
                  false (Some (exn_str e))]))
    end.
Proof.
  intros Hp Hlog Hrelog. unfold calculate.
  pose proof (execute_operation_raises (app_service st) (app_cache st)
                (dispatch_env w) operation parameters true) as He.
  destruct (execute_operation _ _ _ _ _ _) as [[[[[r t] c]|e] svc] db]; simpl.
  - rewrite Hlog. destruct (json_dumps r) as [rtext|e] eqn:Hr.
    + rewrite (log_working _ _ _ _ _ _ _ _ _ ptext (Some rtext));
        [done|done|by simpl; rewrite Hr].
    + rewrite (log_result_raises _ _ _ _ _ _ _ _ _ ptext e) by done.
      apply json_dumps_raises in Hr as ->.
      unfold route_except. simpl. rewrite Hrelog.
      by rewrite (log_working _ _ _ _ _ _ _ _ _ ptext None).
  - destruct (He e eq_refl) as [msg ->].
    unfold route_except. simpl. rewrite Hlog.
    by rewrite (log_working _ _ _ _ _ _ _ _ _ ptext None).
Qed.

(** X16: when the parameters have a JSON text and the session lets the
    request record be persisted, every call of a route adds exactly one
    row to [math_requests], after the rows that were there, and the row
    tells what the client was answered: a response comes with a success
    row holding the JSON text of the result and the time of the response,
    and any other answer is status 400, with a failure row whose error
    message is the detail of the answer and which holds no result. No
    exception leaves the route. The row is written by the first call of
    [log_and_persist_request], except when the dispatch returned a
    result that has no JSON text: then by the second. *)
Theorem route_records_request operation parameters st request w ptext :
  json.dumps parameters = Ok ptext →
  log_faults w = no_faults →
  relog_faults w = no_faults →
  ∃ row,
    app_requests (calculate operation parameters st request w).2
    = app_requests st ++ [row]
    ∧ req_operation row = operation
    ∧ req_parameters row = ptext
    ∧ req_client_ip row = get_client_ip request
    ∧ match (calculate operation parameters st request w).1 with
      | Response body =>
          req_success row = true ∧ req_error_message row = None
          ∧ Some <$> json_dumps (resp_result body) = Ok (req_result row)
          ∧ req_execution_time_ms row = Some (resp_execution_time_ms body)
          ∧ req_timestamp row = log_now w
      | HTTPException code detail =>
          code = 400 ∧ req_success row = false
          ∧ req_error_message row = Some detail ∧ req_result row = None
          ∧ req_timestamp row
            = if is_ok (execute_operation (app_service st) (app_cache st)
                          (dispatch_env w) operation parameters true).1.1
              then relog_now w else log_now w
      | Unhandled _ => False
      end.
Proof.
  intros Hp Hlog Hrelog. rewrite (calculate_logged _ _ _ _ _ ptext) by done.
  destruct (execute_operation _ _ _ _ _ _) as [[[[[r t] c]|e] svc] db]; simpl.
  - destruct (json_dumps r) as [rtext|e] eqn:Hr; simpl;
      eexists; (split; [reflexivity|]); simpl; [by rewrite Hr|done].
  - eexists; (split; [reflexivity|]); done.
Qed.

Lemma cached_requests_snoc requests row :
  cached_requests (requests ++ [row])
  = (cached_requests requests + if is_cached_request row then 1 else 0)%nat.
Proof.
  unfold cached_requests. rewrite List.filter_app, length_app. simpl.
  by destruct (is_cached_request row).
Qed.

Lemma successful_requests_snoc requests row :
  successful_requests (requests ++ [row])
  = (successful_requests requests + if req_success row then 1 else 0)%nat.
Proof.
  unfold successful_requests. rewrite List.filter_app, length_app. simpl.
  by destruct (req_success row).
Qed.

(** X17: what one request adds to the counts of [get_service_statistics]
    when its record is persisted: one to [total_requests]; one to
    [successful_requests] when it was answered with a response and nothing
    otherwise; and to [cached_requests], which counts the successful rows
    whose execution time is 0, one for a response from the cache, but
    also one for a computed response whenever the two readings of the
    performance counter around the computation agree. *)
Theorem statistics_after_request operation parameters st request w ptext :
  json.dumps parameters = Ok ptext →
  log_faults w = no_faults →
  relog_faults w = no_faults →
  total_requests (app_requests (calculate operation parameters st request w).2)
  = S (total_requests (app_requests st))
  ∧ successful_requests
      (app_requests (calculate operation parameters st request w).2)
    = (successful_requests (app_requests st)
       + match (calculate operation parameters st request w).1 with
         | Response _ => 1
         | _ => 0
         end)%nat
  ∧ cached_requests
      (app_requests (calculate operation parameters st request w).2)
    = (cached_requests (app_requests st)
       + match (calculate operation parameters st request w).1 with
         | Response body =>
             if resp_cached body
                || Z.eqb (perf_end (dispatch_env w))
                     (perf_start (dispatch_env w))
             then 1 else 0
         | _ => 0
         end)%nat.
Proof.
  intros Hp Hlog Hrelog. rewrite (calculate_logged _ _ _ _ _ ptext) by done.
  assert (Hfail : ∀ now t e,
            is_cached_request
              (request_row now request operation ptext None t false e) = false).
  { intros now t e. unfold is_cached_request. simpl.
    destruct t; [by rewrite andb_false_r|done]. }
  assert (Hrow : ∀ rows row (n m : nat),
            (if req_success row then 1 else 0)%nat = n →
            (if is_cached_request row then 1 else 0)%nat = m →
            total_requests (rows ++ [row]) = S (total_requests rows)
            ∧ successful_requests (rows ++ [row])
              = (successful_requests rows + n)%nat
            ∧ cached_requests (rows ++ [row]) = (cached_requests rows + m)%nat).
  { intros rows row n m <- <-. unfold total_requests.
    rewrite cached_requests_snoc, successful_requests_snoc, length_app.
    simpl. split; [lia|done]. }
  destruct (execute_operation_cases (app_service st) (app_cache st)
              (dispatch_env w) operation parameters true)
    as [[_ ->]|[(e & _ & _ & ->)|[(c & _ & _ & ->)
       |[(op & e' & svc' & _ & _ & _ & ->)
       |(op & r' & svc' & _ & _ & _ & ->)]]]].
  - simpl. apply Hrow; [done|by rewrite Hfail].
  - simpl. apply Hrow; [done|by rewrite Hfail].
  - destruct (json_dumps c); simpl; (apply Hrow; [done|]);
      [done|by rewrite Hfail].
  - simpl. apply Hrow; [done|by rewrite Hfail].
  - destruct (after_set _ _ operation parameters r' true) as [[[]|e] db'];
      simpl; [|apply Hrow; [done|by rewrite Hfail]].
    destruct (json_dumps r'); simpl; (apply Hrow; [done|]);
      [|by rewrite Hfail].
    unfold is_cached_request. simpl.
    destruct (Z.eqb_spec (perf_end (dispatch_env w))
                (perf_start (dispatch_env w))) as [->|Hne].
    + by rewrite Z.sub_diag.
    + destruct (Z.eqb_spec ((perf_end (dispatch_env w)
                             - perf_start (dispatch_env w)) * 1000) 0);
        [lia|done].
Qed.

(** A request that is not answered from the cache answers what the
    operation gives, unless the result has no JSON text. *)
Lemma calculate_uncached operation parameters st request w op r svc' :
  served_uncached st w operation parameters →
  operations (app_service st) !! operation = Some op →
  call_execute op (app_service st) parameters = (r, svc') →
  (calculate operation parameters st request w).1
  = match r with
    | Ok result =>
        if is_ok (json_dumps result)
        then Response (mkResponse operation parameters result
                         ((perf_end (dispatch_env w)
                           - perf_start (dispatch_env w)) * 1000)
                         (response_now w) false)
        else HTTPException 400 (exn_str json.digit_limit)
    | Raise e => HTTPException 400 ("Operation failed: " +:+ exn_str e)
    end.
Proof.
  intros (_ & _ & (k & Hk & Hrow) & Hexp & Hrb & Hlog & Hrelog) Hop Hcall.
  rewrite (calculate_logged _ _ _ _ _ (dict_text parameters))
    by eauto using generate_cache_key_dumps.
  unfold execute_operation. rewrite Hop.
  rewrite (get_not_selected _ _ _ _ _ k) by (done || by rewrite Hrow).
  rewrite Hcall. destruct r as [r|e]; [|done].
  pose proof (set_returns_default (app_cache st) (utcnow_set (dispatch_env w))
                (faults_set (dispatch_env w)) operation parameters r k
                Hk Hexp Hrb) as Hs.
  destruct (set _ _ _ _ _ _ _) as [s db']. simpl in Hs. subst s.
  destruct (json_dumps r) as [rtext|e] eqn:Hr; [done|].
  by apply json_dumps_raises in Hr as ->.
Qed.

(** The Fibonacci numbers the request schema admits are far below the
    digit limit. *)
Lemma fib_pair_bound k :
  0 ≤ (fib_pair k).1 ≤ 2 ^ Z.of_nat k
  ∧ 0 ≤ (fib_pair k).2 ≤ 2 ^ (Z.of_nat k + 1).
Proof.
  induction k as [|k IH]; [simpl; lia|].
  cbn [fib_pair]. destruct (fib_pair k) as [a b]. simpl in *.
  rewrite Nat2Z.inj_succ, <- !Z.add_1_r.
  rewrite (Z.pow_add_r 2 (Z.of_nat k + 1) 1) by lia.
  rewrite Z.pow_add_r in * by lia. lia.
Qed.

Lemma fib_fits n : 0 ≤ n ≤ 1000 → json.fits (fib n) = true.
Proof.
  intros Hn. unfold json.fits, fib. apply Z.ltb_lt.
  destruct (fib_pair_bound (Z.to_nat n)) as [[Hlo Hhi] _].
  rewrite Z2Nat.id in Hhi by lia. rewrite Z.abs_eq by done.
  eapply Z.le_lt_trans; [apply Hhi|].
  eapply Z.le_lt_trans; [apply (Z.pow_le_mono_r 2 n 1000); lia|].
  by vm_compute.
Qed.

(** X18: a Fibonacci request with [n >= 0] that is not answered from the
    cache is answered with the [n]-th Fibonacci number when that number
    has at most 4300 digits, which holds for every [n] up to 1000; a
    larger number cannot be recorded, and the request is answered with
    status 400 and the message of [json.dumps]. *)
Theorem calculate_fibonacci_computes n st request w :
  served_uncached st w "fibonacci" [("n", n)] → 0 ≤ n →
  (calculate_fibonacci n st request w).1
  = (if json.fits (fib n)
     then Response (mkResponse "fibonacci" [("n", n)] (PyInt (fib n))
                      ((perf_end (dispatch_env w) - perf_start (dispatch_env w))
                       * 1000)
                      (response_now w) false)
     else HTTPException 400 "Exceeds the limit (4300 digits) for integer string conversion; use sys.set_int_max_str_digits() to increase the limit")
  ∧ (n ≤ 1000 → json.fits (fib n) = true).
Proof.
  intros Hserved Hn. split; [|intros; by apply fib_fits].
  pose proof Hserved as (Hops & Hmemo & _). unfold calculate_fibonacci.
  destruct (fibonacci_memo_nonneg (fib_memo (app_service st)) n Hmemo Hn)
    as (m' & Hrun & _).
  rewrite (calculate_uncached _ _ _ _ _ FibonacciOperation
             (Ok (PyInt (fib n)))
             (mkMathService (operations (app_service st)) m')); try done.
  - simpl. rewrite dumps_int_spec. by destruct (json.fits (fib n)).
  - by rewrite Hops.
  - unfold call_execute, bind_kwargs. simpl.
    rewrite lookup_total_insert_eq.
    unfold FibonacciOperation.execute. by rewrite Hrun.
Qed.

Lemma factorial_fits n : 0 ≤ n ≤ 166 → json.fits (factorial n) = true.
Proof.
  intros Hn. destruct (factorial_small n Hn) as [_ Hlt].
  assert (Hpos : ∀ l : list Z, Forall (λ x, 0 < x) l → 0 < foldr Z.mul 1 l).
  { induction 1; simpl; lia. }
  assert (0 < factorial n).
  { apply Hpos, Forall_forall. intros x Hx%elem_of_seqZ. lia. }
  unfold json.fits. apply Z.ltb_lt. rewrite Z.abs_eq by lia.
  eapply Z.lt_trans; [apply Hlt|]. by vm_compute.
Qed.

(** X19: a factorial request that is not answered from the cache is
    answered with [n!] for [0 <= n <= 166], and with status 400 and the
    detail "Operation failed: Factorial result too large" from 167 on,
    which includes the values 167..170 that the request schema admits. *)
Theorem calculate_factorial_computes n st request w :
  served_uncached st w "factorial" [("n", n)] → 0 ≤ n →
  (calculate_factorial n st request w).1
  = if n <=? 166
    then Response (mkResponse "factorial" [("n", n)] (PyInt (factorial n))
                     ((perf_end (dispatch_env w) - perf_start (dispatch_env w))
                      * 1000)
                     (response_now w) false)
    else HTTPException 400 "Operation failed: Factorial result too large".
Proof.
  intros Hserved Hn. pose proof Hserved as (Hops & _).
  unfold calculate_factorial.
  rewrite (calculate_uncached _ _ _ _ _ FactorialOperation
             (PyInt <$> FactorialOperation.execute n) (app_service st));
    try done.
  - destruct (Z.leb_spec n 166).
    + destruct (factorial_small n) as [-> _]; [lia|]. simpl.
      by rewrite dumps_int_spec, factorial_fits by lia.
    + by rewrite factorial_large by lia.
  - by rewrite Hops.
Qed.


End controller_properties.

(** ** Closed instances of the rest *)

Lemma fibonacci_key :
  _generate_cache_key "fibonacci" [("n", 10)]
  = Ok (cache_key_of "fibonacci" [("n", 10)]).
Proof. vm_compute. reflexivity. Qed.

Lemma set_then_get_witness :
  (get (set ∅ 0 no_faults "fibonacci" [("n", 10)] (PyInt 55) (Some 1)).2
     3599999999 no_faults "fibonacci" [("n", 10)]).1
  = Ok (Some (PyInt (pyfloat:=Empty_set) 55))
  ∧ (get (set ∅ 0 no_faults "fibonacci" [("n", 10)]
            (PyInt (pyfloat:=Empty_set) 55) (Some 1)).2
       3600000000 no_faults "fibonacci" [("n", 10)]).1 = Ok None.
Proof.
  split.
  - destruct (set_then_get (pyfloat:=Empty_set) ∅ 0 3599999999 "fibonacci"
                [("n", 10)] (PyInt 55) (Some 1)
                (cache_key_of "fibonacci" [("n", 10)]) "55") as (Hin & _).
    + exact fibonacci_key.
    + vm_compute. reflexivity.
    + vm_compute. reflexivity.
    + unfold is_datetime, datetime_max. lia.
    + destruct Hin as [Hhit _].
      * unfold is_datetime, datetime_max, timedelta_hours, effective_ttl.
        simpl. lia.
      * apply Hhit. unfold timedelta_hours, effective_ttl. simpl. lia.
  - destruct (set_then_get (pyfloat:=Empty_set) ∅ 0 3600000000 "fibonacci"
                [("n", 10)] (PyInt 55) (Some 1)
                (cache_key_of "fibonacci" [("n", 10)]) "55") as (Hin & _).
    + exact fibonacci_key.
    + vm_compute. reflexivity.
    + vm_compute. reflexivity.
    + unfold is_datetime, datetime_max. lia.
    + destruct Hin as [_ Hmiss].
      * unfold is_datetime, datetime_max, timedelta_hours, effective_ttl.
        simpl. lia.
      * apply Hmiss. unfold timedelta_hours, effective_ttl. simpl. lia.
Defined.

(** A time to live of 10^8 hours: [set] raises before its [try]. *)
Lemma set_expiry_overflows :
  set ∅ 0 no_faults "fibonacci" [("n", 10)] (PyInt (pyfloat:=Empty_set) 55)
    (Some 100000000)
  = (Raise (OverflowError "date value out of range"), ∅).
Proof. vm_compute. reflexivity. Qed.

Lemma cache_calls_frame_witness :
  (execute_operation MathService_init first_dispatch.2 (env_at 1) "factorial"
     [("n", 5)] true).2 !! cache_key_of "fibonacci" [("n", 10)]
  = first_dispatch.2 !! cache_key_of "fibonacci" [("n", 10)].
Proof.
  destruct (cache_calls_frame (pyfloat:=Empty_set) first_dispatch.2 0
              no_faults "factorial" [("n", 5)] (PyInt 120) None
              MathService_init (env_at 1) true
              (cache_key_of "fibonacci" [("n", 10)]))
    as (_ & _ & Hframe).
  - vm_compute. intros H. discriminate H.
  - exact Hframe.
Defined.


(** A parameter of 4301 digits: the factorial is 1, and the dispatch
    raises what [json.dumps] raised while the cache key was computed. *)
Lemma dispatch_raises_on_huge_parameter :
  FactorialOperation.execute (- 10 ^ 4300) = Ok 1
  ∧ (execute_operation (pyfloat:=Empty_set) MathService_init ∅ (env_at 0)
       "factorial" [("n", - 10 ^ 4300)] true).1.1
    = Raise (ValueError "Exceeds the limit (4300 digits) for integer string conversion; use sys.set_int_max_str_digits() to increase the limit")
  ∧ is_ok (execute_operation (pyfloat:=Empty_set) MathService_init ∅
             (env_at 0) "factorial" [("n", - 10 ^ 4300)] false).1.1 = true.
Proof. split; [|split]; vm_compute; reflexivity. Qed.

Lemma dispatch_keeps_service_witness :
  memo_ok (fib_memo (execute_operation (pyfloat:=Empty_set) MathService_init
                       ∅ (env_at 0) "fibonacci" [("n", 10)] true).1.2).
Proof.
  destruct (dispatch_keeps_service (pyfloat:=Empty_set) MathService_init ∅
              (env_at 0) "fibonacci" [("n", 10)] true) as [_ Hmemo].
  - exists 1. exact memo_upto_init.
  - exact Hmemo.
Defined.

Lemma fibonacci_memo_grows_witness :
  (FibonacciOperation.execute FibonacciOperation.init 10).2 !! 10 = Some 55.
Proof.
  destruct (fibonacci_memo_grows FibonacciOperation.init 10) as [_ Hn].
  - exists 1. exact memo_upto_init.
  - destruct Hn as [Hat _]; [lia|]. exact Hat.
Defined.

Lemma validated_fibonacci_witness :
  is_ok (schemas.validate_fibonacci_input 1000) = true.
Proof.
  destruct (validated_fibonacci 1000) as [Hdom _]. apply Hdom. lia.
Defined.

Lemma validated_factorial_witness :
  FactorialOperation.execute 170 = Raise FactorialOperation.too_large.
Proof.
  destruct (validated_factorial 170) as [_ Hrun].
  destruct (Hrun 170) as (_ & _ & Hlarge); [reflexivity|].
  apply Hlarge. lia.
Defined.

Lemma dispatch_parameter_order_witness :
  (execute_operation (pyfloat:=Empty_set) MathService_init ∅ (env_at 0)
     "power" [("exponent", 3); ("base", 2)] true).1
  = (execute_operation MathService_init ∅ (env_at 0) "power"
       [("base", 2); ("exponent", 3)] true).1.
Proof.
  apply (dispatch_parameter_order (pyfloat:=Empty_set) MathService_init ∅
           (env_at 0) "power" [("base", 2); ("exponent", 3)]
           [("exponent", 3); ("base", 2)] true (PyInt 8, 2000, false)).
  - apply (bool_decide_unpack _). vm_compute. reflexivity.
  - apply perm_swap.
  - vm_compute. reflexivity.
Defined.

Lemma get_client_ip_forwarded_witness :
  get_client_ip proxied_request = "203.0.113.7".
Proof.
  apply (get_client_ip_forwarded proxied_request " " "203.0.113.7" " "
           ", 10.0.0.1"); reflexivity.
Defined.

Lemma route_records_request_witness :
  ∃ row,
    app_requests (calculate (pyfloat:=Empty_set) "factorial" [("n", 200)]
                    app_init proxied_request (route_env_at 0)).2
    = app_requests app_init ++ [row]
    ∧ req_operation row = "factorial"
    ∧ req_parameters row = dict_text [("n", 200)].
Proof.
  destruct (route_records_request (pyfloat:=Empty_set) "factorial"
              [("n", 200)] app_init proxied_request (route_env_at 0)
              (dict_text [("n", 200)]))
    as (row & Hrows & Hop & Hpar & _).
  - vm_compute. reflexivity.
  - reflexivity.
  - reflexivity.
  - exists row. split; [exact Hrows|]. split; [exact Hop|exact Hpar].
Defined.

Lemma statistics_after_request_witness :
  total_requests
    (app_requests (calculate (pyfloat:=Empty_set) "fibonacci" [("n", 10)]
                     app_init proxied_request (route_env_at 0)).2)
  = S (total_requests (app_requests app_init)).
Proof.
  destruct (statistics_after_request (pyfloat:=Empty_set) "fibonacci"
              [("n", 10)] app_init proxied_request (route_env_at 0)
              (dict_text [("n", 10)]))
    as (Htotal & _ & _).
  - vm_compute. reflexivity.
  - reflexivity.
  - reflexivity.
  - exact Htotal.
Defined.

(** The application that has just started serves every request whose
    parameters have a cache key without the cache. *)
Lemma served_uncached_init operation parameters now :
  fits_all parameters = true →
  is_datetime (now + timedelta_hours 24) →
  served_uncached app_init (route_env_at now) operation parameters.
Proof.
  intros Hfits Hnow.
  split; [reflexivity|]. split; [exists 1; exact memo_upto_init|].
  split.
  { exists (cache_key_of operation parameters).
    rewrite generate_cache_key_spec, Hfits. split; [done|apply lookup_empty]. }
  split; [exact Hnow|]. by repeat split.
Qed.

Lemma calculate_fibonacci_computes_witness :
  (calculate_fibonacci (pyfloat:=Empty_set) 10 app_init proxied_request
     (route_env_at 0)).1
  = Response (mkResponse "fibonacci" [("n", 10)] (PyInt 55) 2000 0 false).
Proof.
  destruct (calculate_fibonacci_computes (pyfloat:=Empty_set) 10 app_init
              proxied_request (route_env_at 0)) as [Hans _].
  - apply served_uncached_init; [vm_compute; reflexivity|].
    exact is_datetime_day.
  - lia.
  - rewrite Hans. vm_compute. reflexivity.
Defined.

Lemma calculate_factorial_computes_witness :
  (calculate_factorial (pyfloat:=Empty_set) 170 app_init proxied_request
     (route_env_at 0)).1
  = HTTPException 400 "Operation failed: Factorial result too large".
Proof.
  apply (calculate_factorial_computes (pyfloat:=Empty_set) 170 app_init
           proxied_request (route_env_at 0)).
  - apply served_uncached_init; [vm_compute; reflexivity|].
    exact is_datetime_day.
  - lia.
Defined.

